(** * Reinforce-Ada evaluation scripts: answer extraction, scoring, merging

    A shallow embedding of [eval/compute_score.py], [eval/merge_data.py] and
    the data steps of [data_process/reformat.py], together with the
    properties their specification states about them.

    Conventions of the embedding.
    - A Python [str] is a Rocq [string]; its characters are the 8-bit
      characters of [ascii] (code points 0..255).  Indexing and slicing go
      through [chars], the string seen as a list of characters.
    - A Python [list] is a Rocq [list]; [l !! i] is [l[i]], [l ++ [x]] is
      [l.append(x)].
    - A Python [dict] with string keys is a [gmap string _].
    - A Python [float] is the rational number of [Q] it denotes.  The
      arithmetic of [Np] is exact: it does not round a sum, a quotient or a
      product to binary64 as numpy does, so it can differ from numpy in the
      last digit of a rounded mean.  The properties below state of a mean
      only what holds of both: whether it exists, that it is not a number,
      the range it lies in, and its value in sample runs where the mean is
      far from a rounding boundary.
    - The libraries the scripts import are outside the repository.  The
      dataset loader, the graders and the tokenizer are parameters
      ([Loader], [Graders], [Tokenizer]): nothing is assumed of them but
      that a call returns a value or raises.
    - Exceptions are values of [exn]; code that may raise returns a
      [result]; code that also writes files, prints or draws random numbers
      runs in the state-and-exception monad [M]. *)

From Stdlib Require Import ZArith QArith Qround Qabs Lqa Ascii String Lia.
From stdpp Require Import base option list strings gmap pretty.

Local Open Scope nat_scope.

(** ** Python strings *)

Module PyStr.

Definition chars (s : string) : list ascii := list_ascii_of_string s.
Definition str (l : list ascii) : string := string_of_list_ascii l.

(** [len(s)] *)
Definition len (s : string) : nat := length (chars s).

(** [s[i]] for [0 <= i]; [None] stands for [IndexError]. *)
Definition get (s : string) (i : nat) : option ascii := chars s !! i.

(** [s[:b]] and [s[a:b]] for non-negative bounds: Python clips the bounds
    to the length of [s], as [take] and [drop] do. *)
Definition slice_to (b : nat) (s : string) : string := str (take b (chars s)).
Definition slice (a b : nat) (s : string) : string :=
  str (drop a (take b (chars s))).

(** [s.endswith(suf)] *)
Definition endswith (s suf : string) : bool :=
  bool_decide (chars suf `suffix_of` chars s).

(** [s.startswith(pre)] on character lists *)
Definition starts (pre l : list ascii) : bool :=
  bool_decide (pre `prefix_of` l).

(** [sub in s] *)
Fixpoint contains_l (sub l : list ascii) : bool :=
  starts sub l ||
  match l with
  | [] => false
  | _ :: l' => contains_l sub l'
  end.
Definition contains (sub s : string) : bool := contains_l (chars sub) (chars s).

(** [s.split(sep)[0]] for a non-empty [sep]: the text before the first
    occurrence of [sep], the whole of [s] when [sep] does not occur. *)
Fixpoint before_first (sep l : list ascii) : list ascii :=
  if starts sep l then []
  else match l with
       | [] => []
       | c :: l' => c :: before_first sep l'
       end.
Definition split_head (sep s : string) : string :=
  str (before_first (chars sep) (chars s)).

(** [s.lower()] on code points 0..255: the ASCII capitals and the Latin-1
    capitals (192..222 except the multiplication sign 215) move up by 32. *)
Definition lower_char (c : ascii) : ascii :=
  let n := nat_of_ascii c in
  if (65 <=? n) && (n <=? 90) then ascii_of_nat (n + 32)
  else if (192 <=? n) && (n <=? 222) && negb (n =? 215) then ascii_of_nat (n + 32)
  else c.
Definition lower (s : string) : string := str (lower_char <$> chars s).

End PyStr.

Import PyStr.

(** ** The fragment of Python's [re] used by the scripts *)

Module Re.

(** [\s] on a [str] pattern matches Unicode white space; among the code
    points 0..255 these are 9..13, 28..32, 133 and 160. *)
Definition is_space (c : ascii) : bool :=
  let n := nat_of_ascii c in
  ((9 <=? n) && (n <=? 13)) || ((28 <=? n) && (n <=? 32))
  || (n =? 133) || (n =? 160).

(** [[a-zA-Z0-9]] *)
Definition is_alnum (c : ascii) : bool :=
  let n := nat_of_ascii c in
  ((97 <=? n) && (n <=? 122)) || ((65 <=? n) && (n <=? 90))
  || ((48 <=? n) && (n <=? 57)).

(** Patterns: a literal, a greedy [c+] over a character class, a
    capturing group (only group 1 is used) and concatenation. *)
Inductive re : Type :=
| Lit (s : string)
| Plus (cls : ascii → bool)
| Group (r : re)
| Seq (r1 r2 : re).

(** Greedy repetition with backtracking: one or more characters of the
    class, the longest run first, then shorter ones, until the
    continuation accepts the rest. *)
Fixpoint plus_bt {R} (cls : ascii → bool) (l : list ascii)
    (k : list ascii → option R) : option R :=
  match l with
  | c :: l' =>
      if cls c then
        match plus_bt cls l' k with
        | Some r => Some r
        | None => k l'
        end
      else None
  | [] => None
  end.

(** The backtracking matcher, anchored at the start of [l]; [g] is the
    current content of group 1 and [k] receives the unread rest. *)
Fixpoint rmatch {R} (r : re) (l : list ascii) (g : option string)
    (k : list ascii → option string → option R) : option R :=
  match r with
  | Lit s => if starts (chars s) l then k (drop (len s) l) g else None
  | Plus cls => plus_bt cls l (λ rest, k rest g)
  | Group r1 =>
      rmatch r1 l g
        (λ rest _, k rest (Some (str (take (length l - length rest) l))))
  | Seq r1 r2 => rmatch r1 l g (λ rest g', rmatch r2 rest g' k)
  end.

(** [re.search(r, text)]: the match at the leftmost position that has
    one; the result is [match.group(1)]. *)
Fixpoint search_l (r : re) (l : list ascii) : option (option string) :=
  match rmatch r l None (λ _ g, Some g) with
  | Some g => Some g
  | None =>
      match l with
      | [] => None
      | _ :: l' => search_l r l'
      end
  end.
Definition search (r : re) (text : string) : option (option string) :=
  search_l r (chars text).

End Re.

(** ** Loops with an early [return] *)

Inductive ctl (S R : Type) : Type :=
| Continue (s : S)
| Return (r : R).
Arguments Continue {S R} s.
Arguments Return {S R} r.

(** [for i in idxs: body] from state [s]. *)
Fixpoint for_each {I S R} (body : I → S → ctl S R) (idxs : list I) (s : S)
    : ctl S R :=
  match idxs with
  | [] => Continue s
  | i :: rest =>
      match body i s with
      | Continue s' => for_each body rest s'
      | Return r => Return r
      end
  end.

(** [l.pop()]: the list without its last element, and that element. *)
Fixpoint py_pop {A} (l : list A) : option (list A * A) :=
  match l with
  | [] => None
  | x :: l' =>
      match py_pop l' with
      | None => Some ([], x)
      | Some (init, y) => Some (x :: init, y)
      end
  end.

(** ** Exceptions *)

(** A raised exception, by the classes the handlers of the scripts
    distinguish.  [TimeoutException] is [math_verify.errors.TimeoutException];
    it derives from [BaseException] and not from [Exception] (its method
    resolution order is [TimeoutException, BaseException, object]), so a
    handler of [Exception] lets it pass.  [ExceptionOf c] is an instance of
    a class [c] deriving from [Exception] ([ValueError], [KeyError], ...);
    [BaseExceptionOf c] is an instance of another class deriving from
    [BaseException] only ([KeyboardInterrupt], [SystemExit]). *)
Inductive exn : Type :=
| TimeoutException
| ExceptionOf (cls : string)
| BaseExceptionOf (cls : string).

(** [isinstance(e, Exception)] and [isinstance(e, TimeoutException)] *)
Definition isinstance_Exception (e : exn) : bool :=
  match e with
  | ExceptionOf _ => true
  | TimeoutException | BaseExceptionOf _ => false
  end.

Definition isinstance_TimeoutException (e : exn) : bool :=
  match e with
  | TimeoutException => true
  | _ => false
  end.

Inductive result (A : Type) : Type :=
| Ok (a : A)
| Raise (e : exn).
Arguments Ok {A} a.
Arguments Raise {A} e.

#[global] Instance result_ret : MRet result := λ A, Ok.
#[global] Instance result_bind : MBind result := λ A B f m,
  match m with
  | Ok a => f a
  | Raise e => Raise e
  end.

(** [for x in l: body] on local state [s], in code that may raise. *)
Fixpoint for_in {A S} (l : list A) (body : A → S → result S) (s : S)
    : result S :=
  match l with
  | [] => Ok s
  | x :: l' =>
      match body x s with
      | Ok s' => for_in l' body s'
      | Raise e => Raise e
      end
  end.

(** ** Python values, as they occur in the records of a dataset *)

#[warnings="-register-all"]
Inductive value : Type :=
| VNone
| VBool (b : bool)
| VInt (z : Z)
| VFloat (q : Q)
| VStr (s : string)
| VList (l : list value)
| VDict (d : gmap string value).

(** A record of a dataset: a [dict] from column names to values. *)
Abbreviation sample := (gmap string value).

(** [d[key]] *)
Definition getitem (d : sample) (key : string) : result value :=
  match d !! key with
  | Some v => Ok v
  | None => Raise (ExceptionOf "KeyError")
  end.

(** [l[i]] for [0 <= i] *)
Definition getindex {A} (l : list A) (i : nat) : result A :=
  match l !! i with
  | Some x => Ok x
  | None => Raise (ExceptionOf "IndexError")
  end.

(** The schema of the datasets gives [responses] as a list of [str] and
    [gt] as a [str].  A value of another type where a list or a [str] is
    used is outside the schema; it is modelled as a [TypeError] at the
    place of use. *)
Definition as_list (v : value) : result (list value) :=
  match v with
  | VList l => Ok l
  | _ => Raise (ExceptionOf "TypeError")
  end.

Definition as_str (v : value) : result string :=
  match v with
  | VStr s => Ok s
  | _ => Raise (ExceptionOf "TypeError")
  end.

(** [enumerate(l)] *)
Definition enumerate {A} (l : list A) : list (nat * A) := imap (λ i x, (i, x)) l.

(** ** Files, standard output, random numbers *)

Definition newline : string := String "010"%char "".

(** What a file holds: the pieces written to it, in order.  [Text s] is
    the text of [f.write(s)]; [Json v] is the text that [json.dump(v, f)]
    writes for [v], kept symbolic. *)
Inductive chunk : Type :=
| Text (s : string)
| Json (v : value).

Record world : Type := World {
  files : gmap string (list chunk);
  stdout : list (list value);      (* one entry per [print], its arguments *)
  draws : nat → nat;               (* the raw draws of the random generator *)
  drawn : nat                      (* how many were consumed *)
}.

(** Code with effects: a final world, and a value or a raised exception. *)
Definition M (A : Type) : Type := world → result A * world.

#[global] Instance M_ret : MRet M := λ A a w, (Ok a, w).
#[global] Instance M_bind : MBind M := λ A B f m w,
  match m w with
  | (Ok a, w') => f a w'
  | (Raise e, w') => (Raise e, w')
  end.

Definition lift {A} (r : result A) : M A := λ w, (r, w).

(** [for x in l: body] on local state [s], in code with effects. *)
Fixpoint for_M {A S} (l : list A) (body : A → S → M S) (s : S) : M S :=
  match l with
  | [] => mret s
  | x :: l' => s' ← body x s; for_M l' body s'
  end.

(** [open(path, "w")]: the file is created or emptied.  Opening and
    writing succeed: the failures of the storage layer (an empty path, a
    missing directory, a full disk) are not modelled, so the properties of
    completed runs below are those of runs whose files can be written. *)
Definition open_w (path : string) : M unit := λ w,
  (Ok (), World (<[path := []]> (files w)) (stdout w) (draws w) (drawn w)).

(** A write to the file opened at [path]. *)
Definition write (path : string) (c : chunk) : M unit := λ w,
  (Ok (), World (alter (λ content, content ++ [c]) path (files w))
             (stdout w) (draws w) (drawn w)).

(** [print(args...)] *)
Definition print (args : list value) : M unit := λ w,
  (Ok (), World (files w) (stdout w ++ [args]) (draws w) (drawn w)).

(** [random._randbelow(n)] for [0 < n]: the next raw draw, reduced below [n]. *)
Definition randbelow (n : nat) : M nat := λ w,
  (Ok (draws w (drawn w) mod n),
   World (files w) (stdout w) (draws w) (S (drawn w))).

(** The loop both scripts end with, on the file opened at [path]:
    [for i in range(len(gathered_data)):
       json.dump(gathered_data[i], f, ensure_ascii=False); f.write("\n")] *)
Definition write_jsonl (path : string) (gathered_data : list sample) : M unit :=
  for_M (seq 0 (length gathered_data))
    (λ i _,
       row ← lift (getindex gathered_data i);
       write path (Json (VDict row));;
       write path (Text newline))
    ().

(** [random.shuffle(x)]:
    [for i in reversed(range(1, len(x))):
       j = randbelow(i + 1); x[i], x[j] = x[j], x[i]] *)
Module Random.

Definition swap {A} (x : list A) (i j : nat) : result (list A) :=
  xj ← getindex x j;
  xi ← getindex x i;
  mret (<[j := xi]> (<[i := xj]> x)).

Definition shuffle {A} (x : list A) : M (list A) :=
  for_M (rev (seq 1 (length x - 1)))
    (λ i x, j ← randbelow (i + 1); lift (swap x i j))
    x.

End Random.

(** ** The dataset loader *)

(** [load_dataset] is that of the library [datasets].  [read_jsonl fs path]
    is what [load_dataset("json", data_files=path, split="train")] gives
    when the files are [fs]: the samples, or the exception it raises.  The
    call leaves the files as they are. *)
Class Loader : Type := {
  read_jsonl : gmap string (list chunk) → string → result (list sample)
}.

Definition load_dataset {L : Loader} (path : string) : M (list sample) := λ w,
  (read_jsonl (files w) path, w).

(** ** The graders the scripts call *)

(** [verify_func] is the function [math_metric(...)] returns: from the
    lists of gold and predicted texts to a score and the extracted
    answers.  [extract_answer] and [math_equal] are those of
    [qwen_evaluation].  Each may raise, and each is a function of its
    arguments: the outcome of a call does not depend on earlier calls. *)
Class Graders : Type := {
  verify_func : list string → list string → result (Q * value);
  extract_answer : string → string → result string;
  math_equal : string → string → result bool
}.

(** ** The fragment of numpy used by the scripts *)

(** The numbers of an array are the rationals its elements denote, and
    [mean] and [round] compute with them exactly; numpy rounds the sum,
    the quotient and the scaled product to binary64. *)
Module Np.

(** A [float64]: not-a-number, or a number. *)
Inductive float64 : Type :=
| NaN
| Fin (q : Q).

(** The number a Python scalar stands for in a numeric array. *)
Definition to_float (v : value) : result Q :=
  match v with
  | VBool b => Ok (if b then 1 else 0)%Q
  | VInt z => Ok (inject_Z z)
  | VFloat q => Ok q
  | _ => Raise (ExceptionOf "TypeError")
  end.

Record ndarray : Type := NdArray {
  shape : list nat;
  data : list Q        (* the elements, row by row *)
}.

(** [np.asarray(a)] for a list of lists [a]: a two-dimensional array when
    all rows have one length.  Rows of differing lengths make no numeric
    array: numpy (1.24 and later) raises [ValueError] for the inhomogeneous
    shape; earlier versions build an array of lists, on which [mean] fails
    with [TypeError]. *)
Definition asarray (a : list (list value)) : result ndarray :=
  match a with
  | [] => Ok (NdArray [0] [])
  | row :: _ =>
      if forallb (λ r, length r =? length row) a then
        elems ← mapM to_float (concat a);
        mret (NdArray [length a; length row] elems)
      else Raise (ExceptionOf "ValueError")
  end.

Definition size (arr : ndarray) : nat := foldr Nat.mul 1 (shape arr).

Definition sum (l : list Q) : Q := foldr Qplus 0%Q l.

(** [np.mean(a)]: the sum of all elements over their number; [nan] (and a
    warning) for an array without elements. *)
Definition mean (a : list (list value)) : result float64 :=
  arr ← asarray a;
  mret (match size arr with
        | O => NaN
        | S _ => Fin (sum (data arr) / inject_Z (Z.of_nat (size arr)))
        end).

(** Rounding to the nearest integer, halves to the even neighbour. *)
Definition rint (q : Q) : Z :=
  let f := Qfloor q in
  match (q - inject_Z f ?= 1 # 2)%Q with
  | Lt => f
  | Gt => (f + 1)%Z
  | Eq => if Z.even f then f else (f + 1)%Z
  end.

(** [np.round(x, decimals)]: scale by [10^decimals], [rint], scale back. *)
Definition round (x : float64) (decimals : nat) : float64 :=
  match x with
  | NaN => NaN
  | Fin q =>
      let scale := inject_Z (10 ^ Z.of_nat decimals) in
      Fin (inject_Z (rint (q * scale)) / scale)
  end.

(** The fractional digits of [str]: four digits, trailing zeros removed,
    one digit kept. *)
Fixpoint strip_zeros (rev_digits : list ascii) : list ascii :=
  match rev_digits with
  | c :: (_ :: _) as rest => if decide (c = "0"%char) then strip_zeros rest else rev_digits
  | _ => rev_digits
  end.

Definition frac_digits (f : Z) : string :=
  let d := chars (pretty f) in
  str (rev (strip_zeros (rev (replicate (4 - length d) "0"%char ++ d)))).

(** [str(x)] for [nan] and for a multiple of [10^-4] below [10^16] in
    absolute value: plain decimal notation. *)
Definition str_float (x : float64) : string :=
  match x with
  | NaN => "nan"
  | Fin q =>
      let k := Qfloor (q * 10000) in
      let a := Z.abs k in
      (if (k <? 0)%Z then "-" else "") +:+
      pretty (a / 10000)%Z +:+ "." +:+ frac_digits (a mod 10000)%Z
  end.

End Np.

(** * [eval/compute_score.py] *)

Module ComputeScore.

(** ** [extract_boxed] (compute_score.py, lines 33-58) *)

Definition boxed_marker : string := "\boxed".

(** [r"\\boxed\s+([a-zA-Z0-9]+)"] *)
Definition boxed_token_re : Re.re :=
  Re.Seq (Re.Lit boxed_marker)
         (Re.Seq (Re.Plus Re.is_space) (Re.Group (Re.Plus Re.is_alnum))).

Record scan_state : Type := ScanState {
  stack : list nat;
  boxed_strs : list string
}.

Definition scan_init : scan_state := ScanState [] [].

(** The body of the loop over [ichar]. *)
Definition scan_body (text : string) (ichar : nat) (st : scan_state)
    : ctl scan_state string :=
  match get text ichar with
  | Some "{"%char => Continue (ScanState (stack st ++ [ichar]) (boxed_strs st))
  | Some "}"%char =>
      match py_pop (stack st) with
      | None => Return ""
      | Some (stack', last_open_start) =>
          if endswith (slice_to last_open_start text) boxed_marker
          then Continue
                 (ScanState stack'
                    (boxed_strs st ++ [slice (last_open_start + 1) ichar text]))
          else Continue (ScanState stack' (boxed_strs st))
      end
  | _ => Continue st
  end.

(** The loop over the first [n] characters. *)
Definition scan_upto (text : string) (n : nat) : ctl scan_state string :=
  for_each (scan_body text) (seq 0 n) scan_init.

Definition extract_boxed (text : string) : string :=
  match scan_upto text (len text) with
  | Return r => r
  | Continue st =>
      match last (boxed_strs st) with
      | Some b => b
      | None =>
          match Re.search boxed_token_re text with
          | Some (Some tok) => tok
          | _ => ""
          end
      end
  end.

(** ** [compute_score] (lines 61-78) *)

(** [ret_score] is a [float]: [0.0], or the score of the verifier.  The
    value of [timeout_score] is returned as it was passed; its default is
    the [int] [0]. *)
Definition compute_score {G : Graders} (model_output ground_truth : string)
    (timeout_score : value) : result value :=
  let ret_score := VFloat 0 in
  (* Wrap the ground truth in \boxed{} format for verification *)
  let ground_truth_boxed := "\boxed{" +:+ ground_truth +:+ "}" in
  let prediction_boxed := "\boxed{" +:+ extract_boxed model_output +:+ "}" in
  match verify_func [ground_truth_boxed] [prediction_boxed] with
  | Ok (score, _) => Ok (VFloat score)
  | Raise e =>
      if isinstance_Exception e then Ok ret_score              (* except Exception: pass *)
      else if isinstance_TimeoutException e then Ok timeout_score  (* except TimeoutException *)
      else Raise e
  end.

(** ** [main] (lines 81-120) *)

Record ScriptArguments : Type := {
  dataset_path : string;
  record_path : string;
  save_score : bool
}.

(** The body of the loop over the responses (lines 98-101); [compute_score]
    is called with its default [timeout_score], the [int] [0]. *)
Definition score_response {G : Graders} (is_minerva_math : bool)
    (response ground_truth : value) : result value :=
  if is_minerva_math then
    r ← as_str response;
    answer ← extract_answer r "minerva_math";
    gt ← as_str ground_truth;
    score ← math_equal answer gt;
    mret (VBool score)
  else
    r ← as_str response;
    gt ← as_str ground_truth;
    compute_score r gt (VInt 0).

(** The body of the loop over the samples (lines 94-103). *)
Definition score_sample {G : Graders} (is_minerva_math : bool) (row : sample)
    : result (list value) :=
  all_responses ← getitem row "responses";
  ground_truth ← getitem row "gt";
  responses ← as_list all_responses;
  for_in responses
    (λ response tmp_scores,
       score ← score_response is_minerva_math response ground_truth;
       mret (tmp_scores ++ [score]))
    [].

(** The scoring loop (lines 92-103). *)
Definition score_all {G : Graders} (is_minerva_math : bool) (ds : list sample)
    : result (list (list value)) :=
  for_in (seq 0 (length ds))
    (λ i all_scores,
       row ← getindex ds i;
       tmp_scores ← score_sample is_minerva_math row;
       mret (all_scores ++ [tmp_scores]))
    [].

(** Save the average score (lines 105-108). *)
Definition write_record (args : ScriptArguments)
    (all_scores : list (list value)) : M unit :=
  open_w (record_path args);;
  rounded_scores ← lift (m ← Np.mean all_scores; mret (Np.round m 4));
  write (record_path args)
    (Text (dataset_path args +:+ " " +:+ Np.str_float rounded_scores +:+ newline)).

(** The loop that attaches the scores (lines 112-115). *)
Definition annotate (ds : list sample) (all_scores : list (list value))
    : result (list sample) :=
  for_in (enumerate ds)
    (λ '(i, row) gathered_data,
       scores ← getindex all_scores i;
       mret (gathered_data ++ [<["scores" := VList scores]> row]))
    [].

Definition score_path (args : ScriptArguments) : string :=
  split_head ".jsonl" (dataset_path args) +:+ "_score.jsonl".

(** Save the score for each sample (lines 111-120). *)
Definition save_scores (args : ScriptArguments) (ds : list sample)
    (all_scores : list (list value)) : M unit :=
  gathered_data ← lift (annotate ds all_scores);
  open_w (score_path args);;
  write_jsonl (score_path args) gathered_data.

Definition main {L : Loader} {G : Graders} (args : ScriptArguments) : M unit :=
  ds ← load_dataset (dataset_path args);
  let is_minerva_math := contains "minerva_math" (lower (dataset_path args)) in
  all_scores ← lift (score_all is_minerva_math ds);
  write_record args all_scores;;
  if save_score args then save_scores args ds all_scores else mret ().

End ComputeScore.

Import ComputeScore.

(** * [eval/merge_data.py] *)

Module MergeData.

Record ScriptArguments : Type := {
  base_path : string;
  output_dir : string;
  num_datasets : nat
}.

(** [os.path.join(a, p)] on POSIX paths *)
Definition os_path_join (a p : string) : string :=
  if starts (chars "/") (chars p) then p
  else if decide (a = "") then p
  else if endswith a "/" then a +:+ p
  else a +:+ "/" +:+ p.

(** [os.path.join(script_args.base_path, f"{i}.json")] *)
Definition shard_path (args : ScriptArguments) (i : nat) : string :=
  os_path_join (base_path args) (pretty i +:+ ".json").

(** The loop over the shards (lines 36-41). *)
Definition gather {L : Loader} (all_dirs : list string) : M (list sample) :=
  for_M all_dirs
    (λ my_dir gathered_data,
       ds ← load_dataset my_dir;
       print [VInt (Z.of_nat (length ds))];;
       mret (foldl (λ gathered_data row, gathered_data ++ [row]) gathered_data ds))
    [].

Definition main {L : Loader} (args : ScriptArguments) : M unit :=
  let all_dirs :=
    foldl (λ all_dirs i, all_dirs ++ [shard_path args i]) []
          (seq 0 (num_datasets args)) in
  gathered_data ← gather all_dirs;
  gathered_data ← Random.shuffle gathered_data;
  print [VStr "I collect "; VInt (Z.of_nat (length gathered_data)); VStr "samples"];;
  open_w (output_dir args);;
  write_jsonl (output_dir args) gathered_data.

End MergeData.

(** * [data_process/reformat.py] *)

Module Reformat.

(** [tokenizer.encode], of the tokenizer the script loads; it may raise. *)
Class Tokenizer : Type := {
  encode : value → result (list Z)
}.

(** The arguments the data steps read. *)
Record Args : Type := {
  train_start : nat;
  train_end : Z
}.

Definition instruction_following : string :=
  "Let's think step by step and output the final answer within \boxed{}.".
Definition system_prompt : string :=
  "Please reason step by step, and put your final answer within \boxed{}.".

(** The dictionary [data] that [process_fn] builds (lines 53-61). *)
Definition make_data (split question : string) (gt : value) (idx : nat)
    : sample :=
  let reward_model : sample :=
    <["style" := VStr "rule"]> (<["ground_truth" := gt]> ∅) in
  <["data_source" := VStr "numina_math"]>
    (<["prompt" :=
         VList [VDict (<["role" := VStr "system"]>
                         (<["content" := VStr system_prompt]> ∅));
                VDict (<["role" := VStr "user"]>
                         (<["content" := VStr question]> ∅))]]>
       (<["ability" := VStr "math"]>
          (<["reward_model" := VDict reward_model]>
             (<["extra_info" :=
                  VDict (<["split" := VStr split]>
                           (<["index" := VInt (Z.of_nat idx)]> ∅))]> ∅)))).

(** [process_fn(example, idx)] of [make_map_fn(split)] (lines 47-62): the
    outcome, and the example as the call leaves it ([pop] removes
    [problem] from it). *)
Definition process_fn (split : string) (example : sample) (idx : nat)
    : result sample * sample :=
  match example !! "problem" with
  | None => (Raise (ExceptionOf "KeyError"), example)
  | Some question =>
      let example := delete "problem" example in
      match as_str question with
      | Raise e => (Raise e, example)
      | Ok question =>
          let question := question +:+ " " +:+ instruction_following in
          match example !! "gt" with
          | None => (Raise (ExceptionOf "KeyError"), example)
          | Some gt => (Ok (make_data split question gt idx), example)
          end
      end
  end.

(** [able_to_extract(example)] (lines 66-69) *)
Definition able_to_extract {T : Tokenizer} (example : sample) : result bool :=
  problem ← getitem example "problem";
  tokens ← encode problem;
  mret (if decide (700 < length tokens) then false else true).

(** [dataset.select(range(start, stop))] for [stop <= len(dataset)] *)
Definition select_range (start stop : nat) (ds : list sample) : list sample :=
  take (stop - start) (drop start ds).

(** [dataset.filter(function)] *)
Definition filter_ds (function : sample → result bool) (ds : list sample)
    : result (list sample) :=
  for_in ds
    (λ example kept,
       keep ← function example;
       mret (if keep : bool then kept ++ [example] else kept))
    [].

(** [dataset.map(function, with_indices=True)]: the function is called on
    each example and its position; the row that results is the example as
    the call left it, updated with the dictionary the call returned. *)
Definition map_with_indices (function : sample → nat → result sample * sample)
    (ds : list sample) : result (list sample) :=
  for_in (enumerate ds)
    (λ '(idx, example) rows,
       let '(outcome, example) := function example idx in
       data ← outcome;
       mret (rows ++ [data ∪ example]))
    [].

(** The data steps of the script (lines 38-76), up to the access to the
    first prepared row in [print(train_dataset[0])]; what is printed and
    the parquet file are not modelled. *)
Definition prepare_train {T : Tokenizer} (args : Args)
    (train_dataset : list sample) : result (list sample) :=
  let train_end := Z.min (train_end args) (Z.of_nat (length train_dataset)) in
  let train_dataset :=
    if (0 <? train_end)%Z
    then select_range (train_start args) (Z.to_nat train_end) train_dataset
    else train_dataset in
  train_dataset ← filter_ds able_to_extract train_dataset;
  train_dataset ← map_with_indices (process_fn "train") train_dataset;
  _ ← getindex train_dataset 0;
  mret train_dataset.

End Reformat.

(** * Vocabulary of the specification *)

(** ** Brace structure of a text, independently of the scanner *)

(** Nesting depth after reading [l] from depth [d]; [None] as soon as a
    closing brace has no open partner. *)
Fixpoint depth (d : nat) (l : list ascii) : option nat :=
  match l with
  | [] => Some d
  | c :: l' =>
      if decide (c = "{"%char) then depth (S d) l'
      else if decide (c = "}"%char) then
        match d with
        | O => None
        | S d' => depth d' l'
        end
      else depth d l'
  end.

Definition balanced (l : list ascii) : Prop := depth 0 l = Some 0.

(** Every closing brace of [text] has an opening partner to its left. *)
Definition no_unmatched_close (text : string) : Prop :=
  is_Some (depth 0 (chars text)).

(** The opening brace at [o] is matched by the closing brace at [c]. *)
Definition brace_pair (text : string) (o c : nat) : Prop :=
  get text o = Some "{"%char ∧ get text c = Some "}"%char ∧ o < c ∧
  balanced (chars (slice (o + 1) c text)).

(** ... and the opening brace is immediately preceded by the marker. *)
Definition boxed_pair (text : string) (o c : nat) : Prop :=
  brace_pair text o c ∧ endswith (slice_to o text) boxed_marker = true.

(** ** Invariants of the scan *)

(** [stack_ok l i s]: [s] lists, innermost first, the opening braces among
    the first [i] characters of [l] that are still unmatched; the text
    after each of them is balanced up to the next one, and so is the text
    before the outermost. *)
Fixpoint stack_ok (l : list ascii) (i : nat) (s : list nat) : Prop :=
  match s with
  | [] => balanced (take i l)
  | o :: s' =>
      o < i ∧ l !! o = Some "{"%char ∧ balanced (drop (S o) (take i l)) ∧
      stack_ok l o s'
  end.

(** The last captured candidate is the content of the boxed pair that
    closes last among the first [i] characters. *)
Definition last_boxed_ok (text : string) (i : nat) (bs : list string) : Prop :=
  match last bs with
  | None => ∀ o c, boxed_pair text o c → ¬ c < i
  | Some b =>
      ∃ o c, boxed_pair text o c ∧ c < i ∧ b = slice (o + 1) c text ∧
             ∀ o' c', boxed_pair text o' c' → c' < i → c' ≤ c
  end.

Definition scan_inv (text : string) (i : nat) (st : scan_state) : Prop :=
  stack_ok (chars text) i (rev (stack st)) ∧
  last_boxed_ok text i (boxed_strs st).

(** ** The brace-less token, in the words of the specification *)

(** The longest prefix of [l] inside a character class, and what follows. *)
Fixpoint run (cls : ascii → bool) (l : list ascii) : list ascii :=
  match l with
  | c :: l' => if cls c then c :: run cls l' else []
  | [] => []
  end.

Fixpoint skip (cls : ascii → bool) (l : list ascii) : list ascii :=
  match l with
  | c :: l' => if cls c then skip cls l' else l
  | [] => []
  end.

(** [l] starts with the marker, followed by white space, followed by the
    contiguous alphanumeric token [tok]. *)
Definition token_at (l tok : list ascii) : Prop :=
  ∃ ws rest,
    l = chars boxed_marker ++ ws ++ tok ++ rest ∧
    ws ≠ [] ∧ Forall (λ c, Re.is_space c = true) ws ∧
    tok ≠ [] ∧ Forall (λ c, Re.is_alnum c = true) tok ∧
    (∀ c, head rest = Some c → Re.is_alnum c = false).

(** [tok] is the token at the leftmost position of [text] that has one. *)
Definition first_boxed_token (text tok : string) : Prop :=
  ∃ pre suf,
    chars text = pre ++ suf ∧ token_at suf (chars tok) ∧
    ∀ pre' suf' tok',
      chars text = pre' ++ suf' → token_at suf' tok' → length pre ≤ length pre'.

Definition no_boxed_token (text : string) : Prop :=
  ∀ pre suf tok, chars text = pre ++ suf → ¬ token_at suf tok.

(** What the anchored match of [boxed_token_re] computes. *)
Definition token_here (l : list ascii) : option (option string) :=
  if starts (chars boxed_marker) l then
    let r0 := drop (len boxed_marker) l in
    match run Re.is_space r0 with
    | [] => None
    | _ :: _ =>
        match run Re.is_alnum (skip Re.is_space r0) with
        | [] => None
        | tok => Some (Some (str tok))
        end
    end
  else None.

(** ** Records, files and means *)

(** The content of a file that holds one JSON record per line. *)
Definition jsonl (rows : list sample) : list chunk :=
  flat_map (λ row, [Json (VDict row); Text newline]) rows.

(** The arithmetic mean of a list of numbers. *)
Definition arith_mean (l : list Q) : Q :=
  (Np.sum l / inject_Z (Z.of_nat (length l)))%Q.

(** A score as the scoring loop produces it: a [bool], a [float], or the
    [int] that stands for a timeout. *)
Definition is_score (v : value) : Prop :=
  match v with
  | VBool _ | VInt _ | VFloat _ => True
  | _ => False
  end.

(** [out] is [path] with its final extension [.jsonl] replaced by
    [_score.jsonl]. *)
Definition extension_replaced (path out : string) : Prop :=
  ∃ stem, path = stem +:+ ".jsonl" ∧ out = stem +:+ "_score.jsonl".

(** [sep] occurs in [l] right after [stem], and nowhere before. *)
Definition first_occurrence (sep stem l : list ascii) : Prop :=
  (∃ rest, l = stem ++ sep ++ rest) ∧
  ∀ pre suf, stem = pre ++ suf → suf ≠ [] → ¬ sep `prefix_of` (drop (length pre) l).

(** A record of the schema: [responses] is a list of [str], [gt] a [str]. *)
Definition well_formed (row : sample) : Prop :=
  ∃ responses gt,
    row !! "responses" = Some (VList (VStr <$> responses)) ∧
    row !! "gt" = Some (VStr gt).

(** The world after appending the pieces [cs] to the file at [path]. *)
Definition appended (path : string) (cs : list chunk) (w : world) : world :=
  World (alter (λ content, content ++ cs) path (files w))
        (stdout w) (draws w) (drawn w).

(** The score the general strategy gives a response: the verifier's score
    of the two boxed texts, [0.0] when the verifier raises. *)
Definition verdict {G : Graders} (response gt : string) : Q :=
  match verify_func ["\boxed{" +:+ gt +:+ "}"]
                    ["\boxed{" +:+ extract_boxed response +:+ "}"] with
  | Ok (score, _) => score
  | Raise _ => 0%Q
  end.

(** The verifier raises nothing but instances of [Exception]. *)
Definition raises_only_Exceptions (G : Graders) : Prop :=
  ∀ golds preds e,
    verify_func golds preds = Raise e → isinstance_Exception e = true.

(** The verifier gives nothing but scores between [0] and [1]. *)
Definition unit_verdicts (G : Graders) : Prop :=
  ∀ golds preds score aux,
    verify_func golds preds = Ok (score, aux) → (0 <= score <= 1)%Q.

(** The number a score stands for in the mean. *)
Definition num_of (v : value) : Q :=
  match v with
  | VBool b => if b then 1%Q else 0%Q
  | VInt z => inject_Z z
  | VFloat q => q
  | _ => 0%Q
  end.

(** A score between [0] and [1]. *)
Definition is_unit_score (v : value) : Prop :=
  match v with
  | VBool _ => True
  | VInt z => (0 ≤ z ≤ 1)%Z
  | VFloat q => (0 <= q <= 1)%Q
  | _ => False
  end.

(** The line of the record file for the rounded mean [x]. *)
Definition record_line (args : ComputeScore.ScriptArguments) (x : Np.float64)
    : string :=
  dataset_path args +:+ " " +:+ Np.str_float x +:+ newline.

(** The files after a complete run of [main] that read the samples [ds],
    scored them as [all_scores] and reported [x]. *)
Definition files_after_main (args : ComputeScore.ScriptArguments)
    (ds : list sample) (all_scores : list (list value)) (x : Np.float64)
    (fs : gmap string (list chunk)) : gmap string (list chunk) :=
  let recorded := <[record_path args := [Text (record_line args x)]]> fs in
  if save_score args then
    <[score_path args :=
        jsonl (zip_with (λ row scores, <["scores" := VList scores]> row)
                        ds all_scores)]> recorded
  else recorded.

(** The sizes the merger prints, one line per shard. *)
Definition printed_sizes (shards : list (list sample)) : list (list value) :=
  (λ shard, [VInt (Z.of_nat (length shard))]) <$> shards.

(** ** The prepared training rows *)

(** An example the data steps accept: a problem text that the tokenizer
    encodes, and a ground truth. *)
Definition preparable {T : Reformat.Tokenizer} (example : sample) : Prop :=
  ∃ question gt tokens,
    example !! "problem" = Some (VStr question) ∧
    example !! "gt" = Some gt ∧
    Reformat.encode (VStr question) = Ok tokens.

(** The number of tokens of the problem of an example. *)
Definition token_count {T : Reformat.Tokenizer} (example : sample) : nat :=
  match example !! "problem" with
  | Some problem =>
      match Reformat.encode problem with
      | Ok tokens => length tokens
      | Raise _ => 0
      end
  | None => 0
  end.

(** The rows of [ds] the script works on: those from [train_start] up to
    [train_end] or the end of [ds], all rows from the first one when
    [train_end] is not positive. *)
Definition window (args : Reformat.Args) (ds : list sample) : list sample :=
  if decide (0 < Reformat.train_end args)%Z
  then drop (Reformat.train_start args)
            (take (Z.to_nat (Reformat.train_end args)) ds)
  else ds.

(** The five fields prepared from an accepted example at position [idx]. *)
Definition prepared_fields (idx : nat) (example : sample) : sample :=
  match example !! "problem", example !! "gt" with
  | Some (VStr question), Some gt =>
      Reformat.make_data "train"
        (question +:+ " " +:+ Reformat.instruction_following) gt idx
  | _, _ => ∅
  end.

(** The row prepared from it: these fields, and the columns of the
    example other than [problem]. *)
Definition prepared_row (idx : nat) (example : sample) : sample :=
  prepared_fields idx example ∪ delete "problem" example.

(** * Sample runs *)

Definition world_of (fs : list (string * list chunk)) : world :=
  World (list_to_map fs) [] (λ n, n) 0.

(** A loader for the sample runs.  It reads one JSON record per line; it
    raises [FileNotFoundError] for a missing file and
    [DatasetGenerationError] for a file without records or of another
    form; it gives every record all the columns of the file, with [None]
    where the record has no value. *)
Fixpoint parse_jsonl (content : list chunk) : option (list sample) :=
  match content with
  | [] => Some []
  | Json (VDict d) :: Text s :: rest =>
      if decide (s = newline) then (d ::.) <$> parse_jsonl rest else None
  | _ => None
  end.

Definition fill_columns (rows : list sample) : list sample :=
  let columns : gset string := ⋃ (dom <$> rows) in
  (λ row : sample, row ∪ gset_to_gmap VNone columns) <$> rows.

Definition jsonl_loader : Loader := {|
  read_jsonl fs path :=
    match fs !! path with
    | None => Raise (ExceptionOf "FileNotFoundError")
    | Some content =>
        match parse_jsonl content with
        | Some (row :: rows) => Ok (fill_columns (row :: rows))
        | _ => Raise (ExceptionOf "DatasetGenerationError")
        end
    end
|}.

Definition row_of (gt : string) (responses : list string) : sample :=
  <["problem" := VStr "1+1"]>
    (<["gt" := VStr gt]> (<["responses" := VList (VStr <$> responses)]> ∅)).

(** A verifier that compares the two boxed texts; the alternate graders
    compare the texts as they are. *)
Definition exact_graders : Graders := {|
  verify_func golds preds := Ok (if decide (golds = preds) then 1%Q else 0%Q, VNone);
  extract_answer response _ := Ok response;
  math_equal answer gt := Ok (bool_decide (answer = gt))
|}.

(** A verifier that runs out of time on every call. *)
Definition timeout_graders : Graders := {|
  verify_func _ _ := Raise TimeoutException;
  extract_answer response _ := Ok response;
  math_equal answer gt := Ok (bool_decide (answer = gt))
|}.

(** Graders whose exact match fails on the answer [\frac{]. *)
Definition failing_graders : Graders := {|
  verify_func _ _ := Raise (ExceptionOf "ValueError");
  extract_answer response _ := Ok response;
  math_equal answer gt :=
    if decide (answer = "\frac{") then Raise (ExceptionOf "ValueError")
    else Ok (bool_decide (answer = gt))
|}.

Definition two_rows : list sample :=
  [row_of "2" ["\boxed{2}"; "\frac{"]; row_of "4" ["\boxed{4}"; "4"]].

Definition ragged_rows : list sample :=
  [row_of "2" ["\boxed{2}"]; row_of "4" ["\boxed{4}"; "\boxed{5}"]].

(** The scores of [two_rows] under [exact_graders], general strategy. *)
Definition two_scores : list (list value) :=
  [[VFloat 1; VFloat 0]; [VFloat 1; VFloat 0]].

Definition minerva_args : ComputeScore.ScriptArguments := {|
  dataset_path := "data/minerva_math.jsonl";
  record_path := "record.txt";
  save_score := true
|}.

Definition math_args : ComputeScore.ScriptArguments := {|
  dataset_path := "data/math500.jsonl";
  record_path := "record.txt";
  save_score := true
|}.

Definition nested_args : ComputeScore.ScriptArguments := {|
  dataset_path := "runs.jsonl.d/eval.jsonl";
  record_path := "record.txt";
  save_score := true
|}.

Definition merge_args : MergeData.ScriptArguments := {|
  MergeData.base_path := "gen";
  MergeData.output_dir := "gen/merged.json";
  MergeData.num_datasets := 3
|}.

(** Three shards, of 3, 5 and 2 samples. *)
Definition three_shards : list (list sample) :=
  [ (λ i, row_of (pretty i) []) <$> seq 0 3;
    (λ i, row_of (pretty i) []) <$> seq 3 5;
    (λ i, row_of (pretty i) []) <$> seq 8 2 ].

Definition shard_world : world :=
  World (list_to_map
           (imap (λ i shard, (MergeData.shard_path merge_args i, jsonl shard))
                 three_shards))
        [] (λ n, 7 * n + 3) 0.

(** A verifier that never raises anything but instances of [Exception]. *)
Definition flaky_graders : Graders := {|
  verify_func golds preds :=
    if decide (golds = preds) then Ok (1%Q, VNone)
    else Raise (ExceptionOf "ValueError");
  extract_answer response _ := Ok response;
  math_equal answer gt := Ok (bool_decide (answer = gt))
|}.

(** A tokenizer that gives one token per character. *)
Definition char_tokenizer : Reformat.Tokenizer := {|
  Reformat.encode v :=
    match v with
    | VStr s => Ok ((λ c, Z.of_nat (nat_of_ascii c)) <$> chars s)
    | _ => Raise (ExceptionOf "TypeError")
    end
|}.

Definition train_args : Reformat.Args := {|
  Reformat.train_start := 1;
  Reformat.train_end := 10
|}.

Definition long_problem : string := str (replicate 701 "x"%char).

Definition train_rows : list sample :=
  [row_of "1" []; row_of "2" []; <["problem" := VStr long_problem]> (row_of "3" []);
   row_of "4" []].

(** * Properties *)

(** ** Basic facts on strings, loops and [pop] *)

Lemma chars_str l : chars (str l) = l.
Proof. apply list_ascii_of_string_of_list_ascii. Qed.

Lemma str_chars s : str (chars s) = s.
Proof. apply string_of_list_ascii_of_string. Qed.

Lemma chars_slice a b s : chars (slice a b s) = drop a (take b (chars s)).
Proof. apply chars_str. Qed.

Lemma chars_slice_to b s : chars (slice_to b s) = take b (chars s).
Proof. apply chars_str. Qed.

Lemma chars_app s1 s2 : chars (s1 +:+ s2) = chars s1 ++ chars s2.
Proof. induction s1 as [|c s1 IH]; simpl; [done|]. by rewrite <- IH. Qed.

Lemma str_app l1 l2 : str (l1 ++ l2) = str l1 +:+ str l2.
Proof.
  rewrite <- (chars_str l1), <- (chars_str l2), <- chars_app at 1.
  apply str_chars.
Qed.

Lemma chars_inj s1 s2 : chars s1 = chars s2 → s1 = s2.
Proof. intros E. by rewrite <- (str_chars s1), E, str_chars. Qed.

Lemma for_each_app {I S R} (body : I → S → ctl S R) l1 l2 s :
  for_each body (l1 ++ l2) s =
  match for_each body l1 s with
  | Continue s' => for_each body l2 s'
  | Return r => Return r
  end.
Proof.
  revert s. induction l1 as [|i l1 IH]; intros s; simpl; [done|].
  destruct (body i s); [apply IH | done].
Qed.

Lemma scan_upto_S text n :
  scan_upto text (S n) =
  match scan_upto text n with
  | Continue st => scan_body text n st
  | Return r => Return r
  end.
Proof.
  unfold scan_upto. rewrite seq_S, for_each_app. simpl.
  destruct (for_each _ _ _) as [st|r]; [|done].
  by destruct (scan_body text n st).
Qed.

Lemma scan_upto_Return text n m r :
  n ≤ m → scan_upto text n = Return r → scan_upto text m = Return r.
Proof.
  intros Hle Hn. induction Hle as [|m Hle IH]; [done|].
  by rewrite scan_upto_S, IH.
Qed.

Lemma py_pop_nil {A} (l : list A) : py_pop l = None ↔ l = [].
Proof.
  destruct l as [|x l]; simpl; [done|].
  destruct (py_pop l) as [[??]|]; split; intros; discriminate.
Qed.

Lemma py_pop_snoc {A} (l : list A) x : py_pop (l ++ [x]) = Some (l, x).
Proof.
  induction l as [|y l IH]; simpl; [done|]. by rewrite IH.
Qed.

Lemma py_pop_Some {A} (l init : list A) x :
  py_pop l = Some (init, x) → l = init ++ [x].
Proof.
  destruct (decide (l = [])) as [->|Hne]; [done|].
  destruct (exists_last Hne) as (l' & y & ->).
  rewrite py_pop_snoc. by intros [= -> ->].
Qed.

(** ** Nesting depth *)

Lemma depth_app d l1 l2 :
  depth d (l1 ++ l2) = depth d l1 ≫= λ d', depth d' l2.
Proof.
  revert d. induction l1 as [|c l1 IH]; intros d; simpl; [done|].
  repeat case_decide; auto. destruct d; auto.
Qed.

Lemma depth_shift k l d d' :
  depth d l = Some d' → depth (d + k) l = Some (d' + k).
Proof.
  revert d. induction l as [|c l IH]; intros d; simpl.
  - by intros [= ->].
  - repeat case_decide.
    + apply (IH (S d)).
    + destruct d as [|d]; [done|]. apply (IH d).
    + apply IH.
Qed.

Lemma balanced_nil : balanced [].
Proof. done. Qed.

Lemma balanced_snoc_other a ch :
  ch ≠ "{"%char → ch ≠ "}"%char → balanced a → balanced (a ++ [ch]).
Proof.
  unfold balanced. intros ?? Ha. rewrite depth_app, Ha. simpl.
  by repeat case_decide.
Qed.

Lemma balanced_wrap a b :
  balanced a → balanced b → balanced (a ++ "{"%char :: b ++ ["}"%char]).
Proof.
  unfold balanced. intros Ha Hb. rewrite depth_app, Ha. simpl.
  apply (depth_shift 1) in Hb. simpl in Hb. by rewrite depth_app, Hb.
Qed.

(** A closing brace after a balanced prefix has no partner. *)
Lemma depth_unmatched a rest :
  balanced a → depth 0 (a ++ "}"%char :: rest) = None.
Proof. unfold balanced. intros Ha. by rewrite depth_app, Ha. Qed.

(** An opening brace before a balanced text stays open. *)
Lemma depth_open_not_balanced a b :
  balanced b → ¬ balanced (a ++ "{"%char :: b).
Proof.
  unfold balanced. intros Hb. rewrite depth_app.
  destruct (depth 0 a) as [n|]; simpl; [|done].
  apply (depth_shift (S n)) in Hb. simpl in Hb. by rewrite Hb.
Qed.

(** ** Segments of a text *)

Lemma take_split {A} (l : list A) o i x :
  o < i → l !! o = Some x → take i l = take o l ++ x :: drop (S o) (take i l).
Proof.
  intros Hoi Hx. rewrite <- (take_drop o (take i l)) at 1.
  rewrite take_take, Nat.min_l by lia. f_equal.
  apply drop_S. rewrite lookup_take. by case_decide; [|lia].
Qed.

Lemma drop_take_split {A} (l : list A) k o i x :
  k ≤ o → o < i → l !! o = Some x →
  drop k (take i l) = drop k (take o l) ++ x :: drop (S o) (take i l).
Proof.
  intros Hko Hoi Hx. rewrite (take_split l o i x Hoi Hx) at 1.
  apply drop_app_le. rewrite length_take.
  apply lookup_lt_Some in Hx. lia.
Qed.

Lemma drop_take_S {A} (l : list A) k i y :
  k ≤ i → l !! i = Some y →
  drop k (take (S i) l) = drop k (take i l) ++ [y].
Proof.
  intros Hki Hy. rewrite (take_S_r _ _ _ Hy).
  apply drop_app_le. rewrite length_take.
  apply lookup_lt_Some in Hy. lia.
Qed.

(** ** Brace pairs *)

Lemma brace_pair_unique text o o' c :
  brace_pair text o c → brace_pair text o' c → o = o'.
Proof.
  assert (∀ o o', o < o' → brace_pair text o c → brace_pair text o' c → False)
    as Hlt.
  { clear o o'. intros o o' Hlt (_ & _ & _ & Hb) (Ho' & _ & Hc & Hb').
    rewrite chars_slice in Hb, Hb'. unfold get in Ho'.
    rewrite Nat.add_1_r in Hb, Hb'.
    rewrite (drop_take_split _ (S o) o' c _ Hlt Hc Ho') in Hb.
    by eapply depth_open_not_balanced. }
  intros H1 H2. destruct (Nat.lt_trichotomy o o') as [?|[?|?]]; [|done|].
  - destruct (Hlt o o'); auto.
  - destruct (Hlt o' o); auto.
Qed.

(** ** The invariant of the scan *)

Lemma stack_ok_weaken l i i' s :
  i ≤ i' →
  (∀ k, k ≤ i → balanced (drop k (take i l)) → balanced (drop k (take i' l))) →
  stack_ok l i s → stack_ok l i' s.
Proof.
  intros Hle Hb. destruct s as [|o s]; simpl.
  - apply (Hb 0). lia.
  - intros (Ho & Hl & Hbal & Hs). split_and!; [lia|done| |done].
    apply Hb; [lia|done].
Qed.

Lemma scan_inv_init text : scan_inv text 0 scan_init.
Proof.
  split; simpl.
  - rewrite take_0. apply balanced_nil.
  - intros o c _. lia.
Qed.

Lemma last_boxed_ok_skip text i bs :
  (∀ o, ¬ boxed_pair text o i) →
  last_boxed_ok text i bs → last_boxed_ok text (S i) bs.
Proof.
  unfold last_boxed_ok. intros Hno. destruct (last bs) as [b|].
  - intros (o & c & Hp & Hc & -> & Hmax). exists o, c.
    split_and!; [done|lia|done|]. intros o' c' Hp' Hc'.
    destruct (decide (c' = i)) as [->|]; [by destruct (Hno o')|].
    apply (Hmax o'); [done|lia].
  - intros Hnone o c Hp Hc.
    destruct (decide (c = i)) as [->|]; [by destruct (Hno o)|].
    apply (Hnone o c); [done|lia].
Qed.

Lemma last_boxed_ok_push text i bs o :
  boxed_pair text o i →
  last_boxed_ok text (S i) (bs ++ [slice (o + 1) i text]).
Proof.
  unfold last_boxed_ok. rewrite last_snoc. intros Hp.
  exists o, i. split_and!; [done|lia|done|]. intros; lia.
Qed.

Lemma scan_body_inv text i st :
  i < len text → scan_inv text i st →
  match scan_body text i st with
  | Continue st' => scan_inv text (S i) st'
  | Return r => r = "" ∧ stack st = [] ∧ get text i = Some "}"%char
  end.
Proof.
  intros Hi [Hst Hbx]. unfold scan_body.
  destruct (get text i) as [ch|] eqn:Hch;
    [|apply lookup_ge_None in Hch; unfold len in Hi; lia].
  unfold get in Hch.
  destruct (decide (ch = "{"%char)) as [->|Hno].
  { split; simpl.
    - rewrite rev_unit. simpl. split_and!; [lia|done| |done].
      rewrite drop_ge; [apply balanced_nil|]. rewrite length_take. lia.
    - apply last_boxed_ok_skip; [|done].
      intros o (( _ & Hc & _) & _). unfold get in Hc. congruence. }
  destruct (decide (ch = "}"%char)) as [->|Hnc].
  - destruct (py_pop (stack st)) as [[stack' o]|] eqn:Hpop.
    + apply py_pop_Some in Hpop. rewrite Hpop, rev_unit in Hst.
      destruct Hst as (Hoi & Ho & Hbal & Hst).
      assert (brace_pair text o i) as Hpair.
      { split_and!; [done..|].
        by rewrite chars_slice, Nat.add_1_r. }
      assert (stack_ok (chars text) (S i) (rev stack')) as Hst'.
      { eapply (stack_ok_weaken _ o); [lia| |done].
        intros k Hk Hb.
        rewrite (drop_take_S _ k i _) by (done || lia).
        rewrite (drop_take_split _ k o i _ Hk Hoi Ho).
        rewrite <- app_assoc. simpl. by apply balanced_wrap. }
      destruct (endswith (slice_to o text) boxed_marker) eqn:Hends.
      * split; simpl; [done|]. by apply last_boxed_ok_push.
      * split; simpl; [done|]. apply last_boxed_ok_skip; [|done].
        intros o' [Hp' He'].
        rewrite (brace_pair_unique _ _ _ _ Hp' Hpair) in He'. congruence.
    + apply py_pop_nil in Hpop. done.
  - assert (scan_body text i st = Continue st) as Hsame.
    { unfold scan_body, get. rewrite Hch.
      destruct ch as [[] [] [] [] [] [] [] []]; done. }
    unfold scan_body, get in Hsame. rewrite Hch in Hsame.
    rewrite Hsame. split.
    + eapply (stack_ok_weaken _ i); [lia| |done].
      intros k Hk Hb. rewrite (drop_take_S _ k i _) by (done || lia).
      by apply balanced_snoc_other.
    + apply last_boxed_ok_skip; [|done].
      intros o (( _ & Hc & _) & _). unfold get in Hc. congruence.
Qed.

Lemma scan_upto_inv text n st :
  n ≤ len text → scan_upto text n = Continue st → scan_inv text n st.
Proof.
  revert st. induction n as [|n IH]; intros st Hn.
  - intros [= <-]. apply scan_inv_init.
  - rewrite scan_upto_S.
    destruct (scan_upto text n) as [st0|] eqn:Hscan; [|done].
    intros Hbody. pose proof (scan_body_inv text n st0) as Hstep.
    rewrite Hbody in Hstep. apply Hstep; [lia|]. apply IH; [lia|done].
Qed.

(** Without an unmatched closing brace the scan runs to the end. *)
Lemma scan_upto_progress text n :
  n ≤ len text → is_Some (depth 0 (take n (chars text))) →
  ∃ st, scan_upto text n = Continue st.
Proof.
  induction n as [|n IH]; intros Hn Hd; [by eexists|].
  destruct (lookup_lt_is_Some_2 (chars text) n) as [ch Hch]; [unfold len in Hn; lia|].
  rewrite (take_S_r _ _ _ Hch), depth_app in Hd.
  destruct (depth 0 (take n (chars text))) as [d|] eqn:Hdn;
    [|by destruct Hd].
  destruct IH as [st Hst]; [lia|by eexists|].
  rewrite scan_upto_S, Hst.
  assert (scan_inv text n st) as Hinv by (apply scan_upto_inv; [lia|done]).
  pose proof (scan_body_inv text n st Hn Hinv) as Hstep.
  destruct (scan_body text n st) as [st'|r]; [by eexists|].
  destruct Hstep as (_ & Hempty & Hclose).
  destruct Hinv as [Hok _].
  rewrite Hempty in Hok. simpl in Hok. unfold balanced in Hok.
  unfold get in Hclose. rewrite Hok in Hdn. simplify_eq. simpl in Hd.
  by destruct Hd.
Qed.

Lemma take_chars_len text : take (len text) (chars text) = chars text.
Proof. by apply take_ge. Qed.

Lemma boxed_pair_lt_len text o c : boxed_pair text o c → c < len text.
Proof. intros ((_ & Hc & _) & _). by apply lookup_lt_Some in Hc. Qed.

(** A closing brace met with an empty stack ends the extraction. *)
Lemma extract_boxed_stray_close text i st :
  scan_upto text i = Continue st →
  stack st = [] →
  get text i = Some "}"%char →
  extract_boxed text = "".
Proof.
  intros Hscan Hempty Hclose.
  assert (scan_upto text (S i) = Return "") as Hret.
  { rewrite scan_upto_S, Hscan. unfold scan_body.
    by rewrite Hclose, Hempty. }
  unfold extract_boxed.
  rewrite (scan_upto_Return text (S i) (len text) ""); [done| |done].
  apply lookup_lt_Some in Hclose. unfold len. lia.
Qed.

(** The stack is empty exactly when the text read so far is balanced. *)
Lemma stack_ok_balanced l i s : stack_ok l i s → balanced (take i l) → s = [].
Proof.
  destruct s as [|o s]; [done|]. intros (Hoi & Ho & Hbal & _) Hb.
  rewrite (take_split l o i _ Hoi Ho) in Hb.
  by destruct (depth_open_not_balanced _ _ Hbal Hb).
Qed.

(** In the words of the text alone: a closing brace right after a balanced
    prefix makes the result empty, whatever follows it. *)
Lemma extract_boxed_after_balanced pre rest :
  balanced (chars pre) → extract_boxed (pre +:+ "}" +:+ rest) = "".
Proof.
  intros Hbal. set (text := pre +:+ "}" +:+ rest).
  assert (chars text = chars pre ++ "}"%char :: chars rest) as Htext.
  { unfold text. by rewrite !chars_app. }
  assert (take (len pre) (chars text) = chars pre) as Htake
    by (rewrite Htext; apply take_app_length).
  assert (len pre ≤ len text) as Hle.
  { unfold len. rewrite Htext, length_app. lia. }
  destruct (scan_upto_progress text (len pre) Hle) as [st Hst].
  { rewrite Htake. unfold balanced in Hbal. by rewrite Hbal. }
  apply (extract_boxed_stray_close text (len pre) st Hst).
  - destruct (scan_upto_inv _ _ _ Hle Hst) as [Hok _].
    assert (rev (stack st) = []) as Hrev.
    { apply (stack_ok_balanced _ _ _ Hok). by rewrite Htake. }
    apply (f_equal (@rev nat)) in Hrev. by rewrite rev_involutive in Hrev.
  - unfold get. rewrite Htext. by apply list_lookup_middle.
Qed.

(** At the end of a text without unmatched closing brace, the scan holds
    the content of the boxed pair that closes last, if there is one. *)
Lemma scan_end_last_boxed text :
  no_unmatched_close text →
  ∃ st, scan_upto text (len text) = Continue st ∧
        last_boxed_ok text (len text) (boxed_strs st).
Proof.
  intros Hclosed.
  destruct (scan_upto_progress text (len text)) as [st Hst]; [done| |].
  { by rewrite take_chars_len. }
  exists st. split; [done|].
  by destruct (scan_upto_inv _ _ _ (Nat.le_refl _) Hst).
Qed.

(** Some boxed pair closes last, and the extractor returns its content. *)
Lemma extract_boxed_some_pair text :
  no_unmatched_close text →
  (∃ o c, boxed_pair text o c) →
  ∃ o c, boxed_pair text o c ∧
         (∀ o' c', boxed_pair text o' c' → c' ≤ c) ∧
         extract_boxed text = slice (o + 1) c text.
Proof.
  intros Hclosed (o0 & c0 & Hp0).
  destruct (scan_end_last_boxed text Hclosed) as (st & Hst & Hbx).
  unfold extract_boxed. rewrite Hst.
  unfold last_boxed_ok in Hbx. destruct (last (boxed_strs st)) as [b|].
  - destruct Hbx as (o & c & Hp & Hc & -> & Hmax). exists o, c.
    split_and!; [done| |done]. intros o' c' Hp'. apply (Hmax o'); [done|].
    by eapply boxed_pair_lt_len.
  - destruct (Hbx o0 c0 Hp0). by eapply boxed_pair_lt_len.
Qed.

(** A text without unmatched closing brace and without boxed pair is
    scanned to its end without a candidate. *)
Lemma scan_without_candidates text :
  no_unmatched_close text →
  (∀ o c, ¬ boxed_pair text o c) →
  ∃ st, scan_upto text (len text) = Continue st ∧ boxed_strs st = [].
Proof.
  intros Hclosed Hnone.
  destruct (scan_end_last_boxed text Hclosed) as (st & Hst & Hbx).
  exists st. split; [done|]. unfold last_boxed_ok in Hbx.
  destruct (last (boxed_strs st)) as [b|] eqn:Hlast.
  - destruct Hbx as (o & c & Hp & _). by destruct (Hnone o c).
  - by apply last_None.
Qed.

(** ** The token pattern *)

Lemma run_skip cls l : run cls l ++ skip cls l = l.
Proof. induction l as [|c l IH]; simpl; [done|]. destruct (cls c); simpl; congruence. Qed.

Lemma run_Forall cls l : Forall (λ c, cls c = true) (run cls l).
Proof.
  induction l as [|c l IH]; simpl; [constructor|].
  destruct (cls c) eqn:Hc; by constructor.
Qed.

Lemma skip_head cls l c : head (skip cls l) = Some c → cls c = false.
Proof.
  induction l as [|c' l IH]; simpl; [done|].
  destruct (cls c') eqn:Hc; [done|]. simpl. congruence.
Qed.

Lemma run_app cls l x :
  Forall (λ c, cls c = true) l →
  (∀ c, head x = Some c → cls c = false) →
  run cls (l ++ x) = l ∧ skip cls (l ++ x) = x.
Proof.
  intros Hl Hx. induction Hl as [|c l Hc _ [IH1 IH2]]; simpl.
  - destruct x as [|c x]; simpl; [done|]. by rewrite (Hx c).
  - rewrite Hc. by rewrite IH1, IH2.
Qed.

Lemma take_run cls l : take (length l - length (skip cls l)) l = run cls l.
Proof.
  rewrite <- (run_skip cls l) at 1 3. rewrite length_app.
  replace (_ + _ - _) with (length (run cls l)) by lia.
  by rewrite take_app_length.
Qed.

(** The greedy repetition settles on the longest run as soon as shorter
    runs cannot succeed where the longest one fails. *)
Lemma plus_bt_longest {R} cls l (k : list ascii → option R) :
  (∀ rest, run cls rest ≠ [] → k (skip cls rest) = None → k rest = None) →
  Re.plus_bt cls l k =
  match run cls l with
  | [] => None
  | _ :: _ => k (skip cls l)
  end.
Proof.
  intros Hk. induction l as [|c l IH]; simpl; [done|].
  destruct (cls c); [|done]. rewrite IH.
  destruct (run cls l) as [|c' r] eqn:Hrun.
  - destruct l as [|c'' l]; simpl in *; [done|].
    by destruct (cls c'').
  - destruct (k (skip cls l)) eqn:Hskip; [done|].
    apply Hk; [by rewrite Hrun|done].
Qed.

Lemma space_not_alnum c : Re.is_space c = true → Re.is_alnum c = false.
Proof. destruct c as [[] [] [] [] [] [] [] []]; vm_compute; congruence. Qed.

Lemma rmatch_token_here l :
  Re.rmatch boxed_token_re l None (λ _ g, Some g) = token_here l.
Proof.
  unfold token_here. simpl. destruct (starts _ l); [|done].
  set (r0 := drop (len boxed_marker) l).
  rewrite plus_bt_longest.
  - destruct (run Re.is_space r0); [done|].
    rewrite plus_bt_longest by done. rewrite take_run.
    by destruct (run Re.is_alnum _).
  - intros rest Hrun _. destruct rest as [|c rest]; simpl in *; [done|].
    destruct (Re.is_space c) eqn:Hc; [|done].
    by rewrite (space_not_alnum c Hc).
Qed.

Lemma token_here_spec l g :
  token_here l = Some g ↔ ∃ tok, g = Some (str tok) ∧ token_at l tok.
Proof.
  unfold token_here, starts, len. split.
  - case_bool_decide as Hpre; [|done]. destruct Hpre as [r0 ->].
    rewrite drop_app_length.
    destruct (run Re.is_space r0) as [|w ws] eqn:Hws; [done|].
    destruct (run Re.is_alnum _) as [|t tok] eqn:Htok; [done|].
    intros [= <-]. exists (t :: tok). split; [done|].
    exists (w :: ws), (skip Re.is_alnum (skip Re.is_space r0)).
    split_and!; try done.
    + by rewrite <- Htok, run_skip, <- Hws, run_skip.
    + rewrite <- Hws. apply run_Forall.
    + rewrite <- Htok. apply run_Forall.
    + apply skip_head.
  - intros (tok & -> & ws & rest & -> & Hws & Hsp & Htok & Hal & Hrest).
    rewrite bool_decide_true by (by eexists).
    rewrite drop_app_length.
    destruct (run_app Re.is_space ws (tok ++ rest) Hsp) as [-> ->].
    { destruct Hal as [|c tok' Hc _]; [done|]. simpl. intros ? [= <-].
      destruct (Re.is_space c) eqn:Hs; [|done].
      by rewrite (space_not_alnum c Hs) in Hc. }
    destruct (run_app Re.is_alnum tok rest Hal Hrest) as [-> _].
    destruct ws; [done|]. by destruct tok.
Qed.

Lemma token_at_unique l tok1 tok2 : token_at l tok1 → token_at l tok2 → tok1 = tok2.
Proof.
  intros H1 H2.
  assert (token_here l = Some (Some (str tok1))) as E1
    by (apply token_here_spec; eauto).
  assert (token_here l = Some (Some (str tok2))) as E2
    by (apply token_here_spec; eauto).
  rewrite E1 in E2. injection E2 as E2.
  by rewrite <- (chars_str tok1), E2, chars_str.
Qed.

Lemma search_l_unfold l :
  Re.search_l boxed_token_re l =
  match token_here l with
  | Some g => Some g
  | None =>
      match l with
      | [] => None
      | _ :: l' => Re.search_l boxed_token_re l'
      end
  end.
Proof. rewrite <- rmatch_token_here. by destruct l. Qed.

Lemma search_l_spec l :
  match Re.search_l boxed_token_re l with
  | Some g =>
      ∃ pre suf tok,
        l = pre ++ suf ∧ g = Some (str tok) ∧ token_at suf tok ∧
        ∀ pre' suf' tok',
          l = pre' ++ suf' → token_at suf' tok' → length pre ≤ length pre'
  | None => ∀ pre suf tok, l = pre ++ suf → ¬ token_at suf tok
  end.
Proof.
  induction l as [|c l IH]; rewrite search_l_unfold.
  - destruct (token_here []) as [g|] eqn:Hg; [done|].
    intros pre suf tok Hl Htok. symmetry in Hl.
    apply app_eq_nil in Hl as [_ ->].
    assert (token_here [] = Some (Some (str tok))) as E
      by (apply token_here_spec; eauto).
    congruence.
  - destruct (token_here (c :: l)) as [g|] eqn:Hg.
    + apply token_here_spec in Hg as (tok & -> & Htok).
      exists [], (c :: l), tok. split_and!; try done. simpl. intros; lia.
    + assert (∀ tok, ¬ token_at (c :: l) tok) as Hno.
      { intros tok Htok.
        assert (token_here (c :: l) = Some (Some (str tok))) as E
          by (apply token_here_spec; eauto).
        congruence. }
      destruct (Re.search_l boxed_token_re l) as [g|].
      * destruct IH as (pre & suf & tok & -> & -> & Htok & Hmin).
        exists (c :: pre), suf, tok. split_and!; try done.
        intros [|c' pre'] suf' tok'; simpl.
        -- intros <- Htok'. by destruct (Hno tok').
        -- intros [= <- Hl] Htok'. apply le_n_S. by eapply Hmin.
      * intros [|c' pre] suf tok; simpl.
        -- intros <-. apply Hno.
        -- intros [= <- Hl]. by eapply IH.
Qed.

Lemma first_boxed_token_unique text tok1 tok2 :
  first_boxed_token text tok1 → first_boxed_token text tok2 → tok1 = tok2.
Proof.
  intros (pre1 & suf1 & E1 & H1 & Hmin1) (pre2 & suf2 & E2 & H2 & Hmin2).
  assert (length pre1 = length pre2) as Hlen.
  { apply Nat.le_antisymm; [by eapply Hmin1|by eapply Hmin2]. }
  assert (pre1 = pre2 ∧ suf1 = suf2) as [-> ->].
  { rewrite E1 in E2. by apply app_inj_1. }
  pose proof (token_at_unique _ _ _ H1 H2) as E.
  by rewrite <- (str_chars tok1), E, str_chars.
Qed.

(** The search of the token pattern, in the words of the specification. *)
Lemma search_boxed_token text :
  match Re.search boxed_token_re text with
  | Some (Some tok) => first_boxed_token text tok
  | Some None => False
  | None => no_boxed_token text
  end.
Proof.
  unfold Re.search. pose proof (search_l_spec (chars text)) as H.
  destruct (Re.search_l _ _) as [g|]; [|done].
  destruct H as (pre & suf & tok & E & -> & Htok & Hmin).
  exists pre, suf. by rewrite chars_str.
Qed.

(** ** Loops that collect one result per element *)

Lemma for_in_ext {A S} (l : list A) (f g : A → S → result S) s :
  (∀ x s, f x s = g x s) → for_in l f s = for_in l g s.
Proof.
  intros Hfg. revert s. induction l as [|x l IH]; intros s; simpl; [done|].
  rewrite Hfg. destruct (g x s); [apply IH|done].
Qed.

Lemma for_in_collect {A B} (f : A → result B) l acc out :
  for_in l (λ x acc, y ← f x; mret (acc ++ [y])) acc = Ok out ↔
  ∃ ys, out = acc ++ ys ∧ Forall2 (λ x y, f x = Ok y) l ys.
Proof.
  revert acc out. induction l as [|x l IH]; intros acc out; simpl.
  - split.
    + intros [= <-]. exists []. by rewrite app_nil_r.
    + intros (ys & -> & Hys). apply Forall2_nil_inv_l in Hys as ->.
      by rewrite app_nil_r.
  - destruct (f x) as [y|e] eqn:Hfx; simpl.
    + rewrite IH. split.
      * intros (ys & -> & Hys). exists (y :: ys).
        split; [by rewrite <- app_assoc|by constructor].
      * intros (ys & -> & Hys).
        apply Forall2_cons_inv_l in Hys as (y' & ys' & Hy' & Hys' & ->).
        rewrite Hfx in Hy'. injection Hy' as <-.
        exists ys'. split; [by rewrite <- app_assoc|done].
    + split; [done|]. intros (ys & _ & Hys).
      apply Forall2_cons_inv_l in Hys as (y' & ys' & Hy' & _). congruence.
Qed.

(** The first element whose body raises ends the loop with its exception. *)
Lemma for_in_collect_Raise {A B} (f : A → result B) l1 x l2 acc ys e :
  Forall2 (λ x y, f x = Ok y) l1 ys → f x = Raise e →
  for_in (l1 ++ x :: l2) (λ x acc, y ← f x; mret (acc ++ [y])) acc = Raise e.
Proof.
  intros Hys Hx. revert acc. induction Hys as [|x' y' l1 ys Hy' _ IH];
    intros acc; simpl.
  - by rewrite Hx.
  - rewrite Hy'. simpl. apply IH.
Qed.

Lemma Forall2_seq_lookup {A B} (P : A → B → Prop) (l : list A) (k : list B) :
  Forall2 (λ i y, ∃ x, l !! i = Some x ∧ P x y) (seq 0 (length l)) k ↔
  Forall2 P l k.
Proof.
  rewrite !Forall2_same_length_lookup, length_seq. split.
  - intros [Hlen H]. split; [done|]. intros i x y Hx Hy.
    destruct (H i i y) as (x' & Hx' & HP); [|done|by simplify_eq].
    apply lookup_seq. split; [done|]. by eapply lookup_lt_Some.
  - intros [Hlen H]. split; [done|]. intros i j y Hj Hy.
    apply lookup_seq in Hj as [-> Hi].
    destruct (lookup_lt_is_Some_2 l i Hi) as [x Hx]. eauto.
Qed.

Lemma getindex_bind_Ok {A B} (l : list A) i (f : A → result B) y :
  (getindex l i ≫= f) = Ok y ↔ ∃ x, l !! i = Some x ∧ f x = Ok y.
Proof.
  unfold getindex. destruct (l !! i) as [x|]; simpl.
  - split; [by eauto|]. by intros (x' & [= <-] & ?).
  - split; [done|]. by intros (x' & ? & ?).
Qed.

Section scoring.
Context {G : Graders}.

Lemma score_sample_Ok b (row : sample) scores :
  score_sample b row = Ok scores ↔
  ∃ responses gt,
    row !! "responses" = Some (VList responses) ∧ row !! "gt" = Some gt ∧
    Forall2 (λ r s, score_response b r gt = Ok s) responses scores.
Proof.
  unfold score_sample, getitem.
  destruct (row !! "responses") as [v|]; simpl;
    [|split; [done|by intros (?&?&?&?)]].
  destruct (row !! "gt") as [gt|]; simpl;
    [|split; [done|by intros (?&?&?&?&?)]].
  destruct v as [| | | | |responses|]; simpl;
    try (split; [done|by intros (?&?&?&?&?)]).
  rewrite (for_in_collect (λ r, score_response b r gt)). split.
  - intros (ys & -> & Hys). by exists responses, gt.
  - intros (responses' & gt' & [= <-] & [= <-] & Hys). by exists scores.
Qed.

Lemma score_all_Ok b (ds : list sample) all_scores :
  score_all b ds = Ok all_scores ↔
  Forall2 (λ row scores, score_sample b row = Ok scores) ds all_scores.
Proof.
  unfold score_all.
  rewrite (for_in_ext _ _
    (λ i acc, y ← (getindex ds i ≫= score_sample b); mret (acc ++ [y]))).
  - rewrite for_in_collect. rewrite <- Forall2_seq_lookup. split.
    + intros (ys & -> & Hys). simpl. eapply Forall2_impl; [done|].
      intros i y. apply getindex_bind_Ok.
    + intros Hys. exists all_scores. split; [done|].
      eapply Forall2_impl; [done|]. intros i y. apply getindex_bind_Ok.
  - intros i acc. unfold getindex. by destruct (ds !! i).
Qed.

(** The type of a score, by strategy: a [bool] under the alternate
    strategy; under the general one a [float], or the [int] [0] that
    [compute_score] returns by default at a timeout. *)
Lemma score_response_type b r gt s :
  score_response b r gt = Ok s →
  if b then ∃ c : bool, s = VBool c else (∃ q, s = VFloat q) ∨ s = VInt 0.
Proof.
  unfold score_response. destruct b.
  - destruct (as_str r); simpl; [|done].
    destruct (extract_answer _ _); simpl; [|done].
    destruct (as_str gt); simpl; [|done].
    destruct (math_equal _ _); simpl; [|done]. intros [= <-]. by eexists.
  - destruct (as_str r); simpl; [|done].
    destruct (as_str gt); simpl; [|done].
    unfold compute_score.
    destruct (verify_func _ _) as [[score aux]|e]; [intros [= <-]; left; by eexists|].
    destruct (isinstance_Exception e); [intros [= <-]; left; by eexists|].
    destruct (isinstance_TimeoutException e); [|done]. intros [= <-]. by right.
Qed.

(** Every score of the loop is a number. *)
Lemma score_response_is_score b r gt s :
  score_response b r gt = Ok s → is_score s.
Proof.
  intros Hs%score_response_type.
  destruct b; [by destruct Hs as [c ->]|by destruct Hs as [[q ->]| ->]].
Qed.

End scoring.

Lemma annotate_Ok (ds : list sample) all_scores :
  length all_scores = length ds →
  annotate ds all_scores =
  Ok (zip_with (λ row scores, <["scores" := VList scores]> row) ds all_scores).
Proof.
  intros Hlen. unfold annotate.
  set (rows := zip_with _ ds all_scores).
  rewrite (for_in_ext _ _
    (λ ir acc,
       y ← (getindex all_scores ir.1 ≫=
              λ scores, mret (<["scores" := VList scores]> ir.2));
       mret (acc ++ [y]))).
  - apply for_in_collect. exists rows. split; [done|].
    apply Forall2_same_length_lookup. unfold enumerate, rows.
    split; [by rewrite length_imap, length_zip_with, Hlen, Nat.min_id|].
    intros i [i' row] row' Hi Hrow'.
    rewrite list_lookup_imap in Hi.
    destruct (ds !! i) as [r|] eqn:Hr; simplify_eq/=.
    apply lookup_zip_with_Some in Hrow' as (r' & scores & -> & Hr' & Hs).
    simplify_eq. apply getindex_bind_Ok. eauto.
  - intros [i row] acc. simpl. unfold getindex.
    by destruct (all_scores !! i).
Qed.

(** ** The extractor: early exit, last boxed pair, token fallback *)

(** C5.  If the scan reaches a closing brace at position [i] while the
    stack of unmatched opening braces is empty, [extract_boxed] returns the
    empty string, whatever follows position [i] in the text. *)
Theorem C5_unmatched_close_returns_empty text i st :
  scan_upto text i = Continue st →
  stack st = [] →
  get text i = Some "}"%char →
  extract_boxed text = "".
Proof. apply extract_boxed_stray_close. Qed.

Lemma C5_witness : extract_boxed "}{\boxed{1}" = "".
Proof.
  apply (C5_unmatched_close_returns_empty "}{\boxed{1}" 0 scan_init);
    reflexivity.
Defined.

(** C6.  In a text without unmatched closing brace, if the brace pair
    [(o, c)] is a matched pair whose opening brace directly follows the
    marker [\boxed], and no other such pair closes further right, then
    [extract_boxed] returns exactly the characters strictly between [o] and
    [c], inner braces included. *)
Theorem C6_returns_last_boxed_pair text o c :
  no_unmatched_close text →
  boxed_pair text o c →
  (∀ o' c', boxed_pair text o' c' → c' ≤ c) →
  extract_boxed text = slice (o + 1) c text.
Proof.
  intros Hclosed Hpair Hlast.
  destruct (extract_boxed_some_pair text Hclosed) as (o1 & c1 & Hp1 & Hmax & ->);
    [by eauto|].
  assert (c1 = c) as ->.
  { apply Nat.le_antisymm; [by apply (Hlast o1)|by apply (Hmax o)]. }
  by rewrite (brace_pair_unique text o o1 c (proj1 Hpair) (proj1 Hp1)).
Qed.

Lemma C6_witness :
  extract_boxed "\boxed{\frac{1}{2}}" = "\frac{1}{2}".
Proof.
  apply (C6_returns_last_boxed_pair "\boxed{\frac{1}{2}}" 6 18).
  - vm_compute. eauto.
  - split; [split_and!|]; vm_compute; (reflexivity || lia).
  - intros o' c' Hp. apply boxed_pair_lt_len in Hp. vm_compute in Hp. lia.
Defined.

(** C7.  When the scan runs to the end of the text without capturing a
    candidate, [extract_boxed] returns the result of one search of the
    pattern [\boxed], white space, alphanumeric token: the token at the
    leftmost position that has one, the empty string when no position has
    one; and exactly one of the two cases applies. *)
Theorem C7_falls_back_to_token text st :
  scan_upto text (len text) = Continue st →
  boxed_strs st = [] →
  extract_boxed text =
    match Re.search boxed_token_re text with
    | Some (Some tok) => tok
    | _ => ""
    end ∧
  (∀ tok, first_boxed_token text tok → extract_boxed text = tok) ∧
  (no_boxed_token text → extract_boxed text = "") ∧
  ((∃ tok, first_boxed_token text tok) ∨ no_boxed_token text).
Proof.
  intros Hscan Hnone.
  assert (extract_boxed text =
            match Re.search boxed_token_re text with
            | Some (Some tok) => tok
            | _ => ""
            end) as Hfall.
  { unfold extract_boxed. by rewrite Hscan, Hnone. }
  pose proof (search_boxed_token text) as Hsearch.
  rewrite Hfall. destruct (Re.search boxed_token_re text) as [[tok|]|].
  - split_and!; [done| | |by eauto].
    + intros tok' Htok'. by eapply first_boxed_token_unique.
    + intros Hno. destruct Hsearch as (pre & suf & E & Htok & _).
      by destruct (Hno pre suf (chars tok)).
  - done.
  - split_and!; [done| |done|by right].
    intros tok (pre & suf & E & Htok & _). by destruct (Hsearch pre suf (chars tok)).
Qed.

Lemma C7_witness :
  extract_boxed "\boxed 5 end" = "5" ∧ extract_boxed "no box here" = "".
Proof.
  split.
  - destruct (C7_falls_back_to_token "\boxed 5 end" scan_init) as [E _];
      [reflexivity..|]. rewrite E. reflexivity.
  - destruct (C7_falls_back_to_token "no box here" scan_init) as [E _];
      [reflexivity..|]. rewrite E. reflexivity.
Defined.

(** ** Scoring one response *)

(** The outcomes of [compute_score]: the score of the verifier; [0.0] when
    the verifier raises an instance of [Exception]; [timeout_score] when it
    raises [TimeoutException]; any other exception leaves the function. *)
Lemma compute_score_outcomes {G : Graders} model_output ground_truth timeout_score :
  compute_score model_output ground_truth timeout_score =
  match verify_func ["\boxed{" +:+ ground_truth +:+ "}"]
                    ["\boxed{" +:+ extract_boxed model_output +:+ "}"] with
  | Ok (score, _) => Ok (VFloat score)
  | Raise (ExceptionOf _) => Ok (VFloat 0)
  | Raise TimeoutException => Ok timeout_score
  | Raise e => Raise e
  end.
Proof.
  unfold compute_score. destruct (verify_func _ _) as [[score aux]|e]; [done|].
  by destruct e.
Qed.

(** C10, for the exceptions the first handler takes.  Whenever the
    verification call raises an instance of [Exception], [compute_score]
    returns [0.0], for every model output, ground truth and value of
    [timeout_score].  A timeout is no such instance. *)
Theorem C10_exception_scores_zero {G : Graders}
    model_output ground_truth timeout_score e :
  verify_func ["\boxed{" +:+ ground_truth +:+ "}"]
              ["\boxed{" +:+ extract_boxed model_output +:+ "}"] = Raise e →
  isinstance_Exception e = true →
  compute_score model_output ground_truth timeout_score = Ok (VFloat 0).
Proof.
  intros Hraise Hexc. unfold compute_score. by rewrite Hraise, Hexc.
Qed.

Lemma C10_witness :
  compute_score (G := failing_graders) "\boxed{2}" "2" (VInt 1) = Ok (VFloat 0).
Proof.
  apply (C10_exception_scores_zero (G := failing_graders)
           "\boxed{2}" "2" (VInt 1) (ExceptionOf "ValueError")); reflexivity.
Defined.

(** C10 as stated fails at a timeout: the handler of [Exception] lets
    [TimeoutException] pass, the handler after it returns [timeout_score],
    here [1], and not [0.0]. *)
Lemma C10_timeout_counterexample :
  isinstance_Exception TimeoutException = false ∧
  compute_score (G := timeout_graders) "\boxed{2}" "2" (VInt 1) = Ok (VInt 1) ∧
  compute_score (G := timeout_graders) "\boxed{2}" "2" (VInt 1) ≠ Ok (VFloat 0).
Proof. split_and!; [reflexivity|reflexivity|discriminate]. Qed.

(** C2.  When the verification call raises [TimeoutException],
    [compute_score] returns the value passed as [timeout_score], whatever
    that value, the model output and the ground truth are; called without
    it, as the scoring loop does, it returns the default, the [int] [0]. *)
Theorem C2_timeout_returns_timeout_score {G : Graders}
    model_output ground_truth timeout_score :
  verify_func ["\boxed{" +:+ ground_truth +:+ "}"]
              ["\boxed{" +:+ extract_boxed model_output +:+ "}"]
    = Raise TimeoutException →
  compute_score model_output ground_truth timeout_score = Ok timeout_score ∧
  score_response false (VStr model_output) (VStr ground_truth) = Ok (VInt 0).
Proof.
  intros Hraise. unfold score_response, compute_score. simpl.
  by rewrite Hraise.
Qed.

Lemma C2_witness :
  compute_score (G := timeout_graders) "\boxed{2}" "2" (VFloat (1 # 4))
    = Ok (VFloat (1 # 4)) ∧
  score_response (G := timeout_graders) false (VStr "\boxed{2}") (VStr "2")
    = Ok (VInt 0).
Proof.
  apply (C2_timeout_returns_timeout_score (G := timeout_graders)
           "\boxed{2}" "2" (VFloat (1 # 4))).
  reflexivity.
Defined.

(** ** The scoring loop *)

(** C4.  When the scoring loop completes, every sample gets a list of
    scores as long as its list of responses, the score at position [j]
    being the result of scoring the response at position [j]; the loop that
    attaches the scores stores that list under [scores] and leaves
    [responses] as it was. *)
Theorem C4_scores_aligned {G : Graders} is_minerva_math ds all_scores :
  score_all is_minerva_math ds = Ok all_scores →
  ∃ gathered_data,
    annotate ds all_scores = Ok gathered_data ∧
    length gathered_data = length ds ∧
    ∀ i (row : sample), ds !! i = Some row →
      ∃ (row' : sample) responses gt scores,
        gathered_data !! i = Some row' ∧
        all_scores !! i = Some scores ∧
        row !! "gt" = Some gt ∧
        row' !! "responses" = Some (VList responses) ∧
        row' !! "scores" = Some (VList scores) ∧
        length scores = length responses ∧
        ∀ j r, responses !! j = Some r →
          ∃ s, scores !! j = Some s ∧
               score_response is_minerva_math r gt = Ok s.
Proof.
  intros Hall. apply score_all_Ok in Hall.
  pose proof (Forall2_length _ _ _ Hall) as Hlen.
  eexists. split; [by apply annotate_Ok|].
  split; [by rewrite length_zip_with, <- Hlen, Nat.min_id|].
  intros i row Hrow.
  destruct (Forall2_lookup_l _ _ _ _ _ Hall Hrow) as (scores & Hscores & Hrow_ok).
  apply score_sample_Ok in Hrow_ok as (responses & gt & Hresp & Hgt & Haligned).
  exists (<["scores" := VList scores]> row), responses, gt, scores.
  split_and!; try done.
  - apply lookup_zip_with_Some. eauto.
  - by rewrite lookup_insert_ne.
  - by rewrite lookup_insert_eq.
  - symmetry. by eapply Forall2_length.
  - intros j r Hr.
    destruct (Forall2_lookup_l _ _ _ _ _ Haligned Hr) as (s & Hs & Hscore).
    eauto.
Qed.

Lemma C4_witness :
  ∃ gathered_data,
    annotate two_rows two_scores = Ok gathered_data ∧
    length gathered_data = 2.
Proof.
  destruct (C4_scores_aligned (G := exact_graders) false two_rows two_scores)
    as (gathered_data & Hann & Hlen & _); [vm_compute; reflexivity|].
  exists gathered_data. split; [exact Hann|exact Hlen].
Defined.

Lemma Forall_exists_Forall2 {A B} (P : A → B → Prop) l :
  Forall (λ x, ∃ y, P x y) l → ∃ k, Forall2 P l k.
Proof.
  induction 1 as [|x l [y Hy] _ [k Hk]]; [by exists []|].
  exists (y :: k). by constructor.
Qed.

(** Under the general strategy the loop absorbs every failure of the
    verifier that is an [Exception]: it gives each response of each
    well-formed sample a score. *)
Lemma general_strategy_scores_every_response {G : Graders} (ds : list sample) :
  (∀ golds preds e,
     verify_func golds preds = Raise e → isinstance_Exception e = true) →
  Forall well_formed ds →
  ∃ all_scores, score_all false ds = Ok all_scores.
Proof.
  intros Hexc Hwf.
  destruct (Forall_exists_Forall2
              (λ row scores, score_sample false row = Ok scores) ds)
    as [all_scores Hall]; [|exists all_scores; by apply score_all_Ok].
  eapply Forall_impl; [exact Hwf|].
  intros row (responses & gt & Hresp & Hgt).
  destruct (Forall_exists_Forall2
              (λ r s, score_response false r (VStr gt) = Ok s)
              (VStr <$> responses)) as [scores Hscores].
  - apply Forall_fmap, Forall_forall. intros r _. simpl.
    unfold score_response, compute_score. simpl.
    destruct (verify_func _ _) as [[score aux]|e] eqn:Hv; [by eexists|].
    rewrite (Hexc _ _ _ Hv). by eexists.
  - exists scores. apply score_sample_Ok. eauto.
Qed.

(** The scores of a completed loop are numbers. *)
Lemma score_all_is_score {G : Graders} b (ds : list sample) all_scores :
  score_all b ds = Ok all_scores → Forall (Forall is_score) all_scores.
Proof.
  intros Hall%score_all_Ok. induction Hall as [|row scores ds all Hrow _ IH];
    constructor; [|done].
  apply score_sample_Ok in Hrow as (responses & gt & _ & _ & Hscores).
  induction Hscores as [|r s rs ss Hs _ IHs]; constructor; [|done].
  by eapply score_response_is_score.
Qed.

(** C1, at a run of the alternate strategy in which the exact match fails
    on one response: the failure leaves the loop and ends the run; no
    response gets a score and no record is written.  The general strategy
    scores the same responses although its verifier fails on each. *)
Theorem C1_minerva_failure_aborts :
  let w := world_of [("data/minerva_math.jsonl", jsonl two_rows)] in
  score_all (G := failing_graders) true two_rows
    = Raise (ExceptionOf "ValueError") ∧
  main (L := jsonl_loader) (G := failing_graders) minerva_args w
    = (Raise (ExceptionOf "ValueError"), w) ∧
  score_all (G := failing_graders) false two_rows
    = Ok [[VFloat 0; VFloat 0]; [VFloat 0; VFloat 0]].
Proof. vm_compute. done. Qed.

(** ** The mean and the summary record *)

Lemma mapM_result_Ok {A B} (f : A → result B) l ys :
  mapM f l = Ok ys ↔ Forall2 (λ x y, f x = Ok y) l ys.
Proof.
  revert ys. induction l as [|x l IH]; intros ys; simpl.
  - split; [intros [= <-]; constructor|]. by intros ->%Forall2_nil_inv_l.
  - destruct (f x) as [y|e] eqn:Hfx; simpl.
    + destruct (mapM f l) as [k|e]; simpl.
      * split.
        -- intros [= <-]. constructor; [done|]. by apply IH.
        -- intros (y' & k' & Hy' & Hk' & ->)%Forall2_cons_inv_l.
           apply IH in Hk'. rewrite Hfx in Hy'. by simplify_eq.
      * split; [done|].
        intros (y' & k' & Hy' & Hk' & ->)%Forall2_cons_inv_l.
        by apply IH in Hk'.
    + split; [done|].
      intros (y' & k' & Hy' & _)%Forall2_cons_inv_l. congruence.
Qed.

Lemma length_concat_equal_rows {A} (a : list (list A)) n :
  Forall (λ row, length row = n) a → length (concat a) = length a * n.
Proof.
  induction 1 as [|row a Hrow _ IH]; simpl; [done|].
  rewrite length_app. lia.
Qed.

(** Rows of differing lengths have no mean. *)
Lemma mean_ragged row1 row2 a :
  length row1 ≠ length row2 →
  Np.mean (row1 :: row2 :: a) = Raise (ExceptionOf "ValueError").
Proof.
  intros Hne. unfold Np.mean, Np.asarray. simpl.
  rewrite Nat.eqb_refl. simpl.
  destruct (Nat.eqb_spec (length row2) (length row1)); [congruence|done].
Qed.

Lemma rint_close q : (- (1 # 2) <= inject_Z (Np.rint q) - q <= 1 # 2)%Q.
Proof.
  unfold Np.rint.
  pose proof (Qfloor_le q) as Hlo. pose proof (Qlt_floor q) as Hhi.
  rewrite inject_Z_plus in Hhi.
  assert (inject_Z (Qfloor q + 1) = (inject_Z (Qfloor q) + 1)%Q) as Hnext
    by apply inject_Z_plus.
  change (inject_Z 1) with 1%Q in Hhi.
  destruct (Qcompare_spec (q - inject_Z (Qfloor q)) (1 # 2)) as [Heq|Hlt|Hgt].
  - destruct (Z.even (Qfloor q)); [|rewrite Hnext]; lra.
  - lra.
  - rewrite Hnext. lra.
Qed.

Lemma write_record_unfold args all_scores w :
  write_record args all_scores w =
  match Np.mean all_scores with
  | Ok m =>
      (Ok (),
       World (<[record_path args :=
                  [Text (dataset_path args +:+ " " +:+
                         Np.str_float (Np.round m 4) +:+ newline)]]> (files w))
             (stdout w) (draws w) (drawn w))
  | Raise e =>
      (Raise e,
       World (<[record_path args := []]> (files w))
             (stdout w) (draws w) (drawn w))
  end.
Proof.
  unfold write_record, mbind, M_bind, open_w, lift, write.
  destruct (Np.mean all_scores) as [m|e]; cbn [result_bind mret result_ret];
    [|done].
  cbn [files stdout draws drawn]. by rewrite alter_insert_eq.
Qed.

(** Scores in rows of differing lengths leave the record file empty: it
    is opened, then the mean raises [ValueError]. *)
Lemma write_record_ragged args row1 row2 a w :
  length row1 ≠ length row2 →
  write_record args (row1 :: row2 :: a) w =
  (Raise (ExceptionOf "ValueError"),
   World (<[record_path args := []]> (files w)) (stdout w) (draws w) (drawn w)).
Proof.
  intros Hne. by rewrite write_record_unfold, mean_ragged.
Qed.

(** C3, at a dataset whose samples have one and two responses: every
    response is scored, but the mean is taken of the nested list of
    scores, which is no array; the run ends with [ValueError] and the
    record file, already opened, holds no line.  The flattened scores
    [1.0, 1.0, 0.0] have the mean [0.6667]. *)
Theorem C3_ragged_scores_no_record :
  let w := world_of [("data/math500.jsonl", jsonl ragged_rows)] in
  let run := main (L := jsonl_loader) (G := exact_graders) math_args w in
  score_all (G := exact_graders) false ragged_rows
    = Ok [[VFloat 1]; [VFloat 1; VFloat 0]] ∧
  Np.mean [[VFloat 1]; [VFloat 1; VFloat 0]] = Raise (ExceptionOf "ValueError") ∧
  run.1 = Raise (ExceptionOf "ValueError") ∧
  files run.2 !! "record.txt" = Some [] ∧
  files (write_record math_args [[VFloat 1; VFloat 1; VFloat 0]] w).2
    !! "record.txt"
  = Some [Text ("data/math500.jsonl 0.6667" +:+ newline)].
Proof. vm_compute. done. Qed.

Example record_line_two_thirds :
  (write_record math_args [[VFloat 1; VFloat 0; VBool true]] (world_of [])).2.(files)
    !! "record.txt"
  = Some [Text ("data/math500.jsonl 0.6667" +:+ newline)].
Proof. vm_compute. reflexivity. Qed.

(** ** Files *)

Lemma M_bind_eq {A B} (m : M A) (f : A → M B) w :
  (m ≫= f) w =
  match m w with
  | (Ok a, w') => f a w'
  | (Raise e, w') => (Raise e, w')
  end.
Proof. reflexivity. Qed.

Lemma write_appended path c w : write path c w = (Ok (), appended path [c] w).
Proof. reflexivity. Qed.

Lemma appended_nil path w : appended path [] w = w.
Proof.
  destruct w as [fs out dr n]. unfold appended. simpl. f_equal.
  apply alter_id. intros content _. apply app_nil_r.
Qed.

Lemma appended_appended path cs1 cs2 w :
  appended path cs2 (appended path cs1 w) = appended path (cs1 ++ cs2) w.
Proof.
  unfold appended. simpl. f_equal.
  rewrite alter_alter_eq. apply alter_ext.
  intros content _. simpl. by rewrite app_assoc.
Qed.

Lemma write_jsonl_from path pre rows w :
  for_M (seq (length pre) (length rows))
    (λ i _,
       row ← lift (getindex (pre ++ rows) i);
       write path (Json (VDict row));;
       write path (Text newline))
    () w
  = (Ok (), appended path (jsonl rows) w).
Proof.
  revert pre w. induction rows as [|row rows IH]; intros pre w.
  - by rewrite appended_nil.
  - cbn [length seq for_M]. rewrite M_bind_eq.
    rewrite M_bind_eq. unfold lift at 1, getindex.
    rewrite list_lookup_middle by done.
    rewrite M_bind_eq, write_appended, write_appended.
    replace (pre ++ row :: rows) with ((pre ++ [row]) ++ rows)
      by (by rewrite <- app_assoc).
    replace (S (length pre)) with (length (pre ++ [row]))
      by (rewrite length_app; simpl; lia).
    rewrite IH. by rewrite !appended_appended.
Qed.

Lemma write_jsonl_spec path rows w :
  write_jsonl path rows w = (Ok (), appended path (jsonl rows) w).
Proof. apply (write_jsonl_from path [] rows w). Qed.

Lemma load_dataset_read {L : Loader} path w :
  load_dataset path w = (read_jsonl (files w) path, w).
Proof. reflexivity. Qed.

(** Opening a file and writing the records leaves exactly these records
    in it. *)
Lemma open_write_jsonl path rows w :
  (open_w path;; write_jsonl path rows) w =
  (Ok (), World (<[path := jsonl rows]> (files w)) (stdout w) (draws w) (drawn w)).
Proof.
  rewrite M_bind_eq. unfold open_w. rewrite write_jsonl_spec.
  unfold appended. simpl. by rewrite alter_insert_eq.
Qed.

(** ** Paths *)

Lemma before_first_unfold sep l :
  before_first sep l =
  if starts sep l then []
  else match l with
       | [] => []
       | c :: l' => c :: before_first sep l'
       end.
Proof. by destruct l. Qed.

Lemma before_first_first_occurrence sep stem l :
  first_occurrence sep stem l → before_first sep l = stem.
Proof.
  revert l. induction stem as [|c stem IH]; intros l [[rest ->] Hfirst].
  - rewrite before_first_unfold. unfold starts.
    rewrite bool_decide_true; [done|]. by eexists.
  - rewrite before_first_unfold. unfold starts.
    rewrite bool_decide_false by (apply (Hfirst [] (c :: stem)); done).
    simpl. f_equal. apply IH. split; [by eexists|].
    intros pre suf -> Hsuf. apply (Hfirst (c :: pre) suf); done.
Qed.


(** ** The annotated dataset *)

(** C9, at a dataset path with an earlier [.jsonl].  For the dataset
    [runs.jsonl.d/eval.jsonl] the run completes and writes the annotated
    samples, but to [runs_score.jsonl]: the path is cut at the first
    [.jsonl] and not at the final extension, so the file with the final
    extension replaced, [runs.jsonl.d/eval_score.jsonl], is not written. *)
Theorem C9_scores_misplaced :
  let w := world_of [("runs.jsonl.d/eval.jsonl", jsonl two_rows)] in
  let run := main (L := jsonl_loader) (G := exact_graders) nested_args w in
  run.1 = Ok () ∧
  score_path nested_args = "runs_score.jsonl" ∧
  files run.2 !! "runs_score.jsonl"
    = Some (jsonl (zip_with (λ (row : sample) scores,
                               <["scores" := VList scores]> row)
                            two_rows two_scores)) ∧
  files run.2 !! "runs.jsonl.d/eval_score.jsonl" = None ∧
  ¬ extension_replaced (dataset_path nested_args) (score_path nested_args).
Proof.
  split_and!; [vm_compute; reflexivity..|].
  intros (stem & Hin & Hout).
  assert (score_path nested_args = "runs" +:+ "_score.jsonl") as E
    by (vm_compute; reflexivity).
  rewrite E in Hout. apply (f_equal chars) in Hout.
  rewrite !chars_app in Hout. apply app_inv_tail in Hout.
  apply chars_inj in Hout as <-. vm_compute in Hin. discriminate.
Qed.

(** When the first [.jsonl] of the dataset path is its final extension,
    the annotated samples go to the path with that extension replaced. *)
Lemma score_path_extension_replaced args stem :
  dataset_path args = stem +:+ ".jsonl" →
  first_occurrence (chars ".jsonl") (chars stem) (chars (dataset_path args)) →
  extension_replaced (dataset_path args) (score_path args).
Proof.
  intros Hstem Hfirst. exists stem. split; [done|].
  unfold score_path, split_head.
  by rewrite (before_first_first_occurrence _ _ _ Hfirst), str_chars.
Qed.


(** ** Shuffling and merging *)

Lemma delete_insert_same {A} (l : list A) i y : delete i (<[i := y]> l) = delete i l.
Proof.
  revert i. induction l as [|x l IH]; intros [|i]; simpl; [done..|].
  by rewrite IH.
Qed.

Lemma swap_Permutation {A} (x x' : list A) i j :
  Random.swap x i j = Ok x' → x' ≡ₚ x.
Proof.
  unfold Random.swap, getindex.
  destruct (x !! j) as [xj|] eqn:Hj; simpl; [|done].
  destruct (x !! i) as [xi|] eqn:Hi; simpl; [|done].
  intros [= <-]. destruct (decide (i = j)) as [->|Hne].
  - simplify_eq. rewrite list_insert_insert_eq. by rewrite list_insert_id.
  - assert (<[i:=xj]> x !! j = Some xj) as Hj'
      by (by rewrite list_lookup_insert_ne).
    assert (<[i:=xj]> x !! i = Some xj) as Hi'
      by (apply list_lookup_insert_eq; by eapply lookup_lt_Some).
    assert (delete j (<[i:=xj]> x) ≡ₚ delete i x) as Hdel.
    { apply (Permutation_cons_inv (a := xj)).
      rewrite <- (delete_Permutation _ _ _ Hj').
      rewrite (delete_Permutation _ _ _ Hi'). by rewrite delete_insert_same. }
    rewrite (delete_Permutation (<[j:=xi]> (<[i:=xj]> x)) j xi).
    + rewrite delete_insert_same, Hdel. symmetry. by apply delete_Permutation.
    + apply list_lookup_insert_eq. by eapply lookup_lt_Some.
Qed.

Lemma swap_Ok {A} (x : list A) i j :
  i < length x → j < length x → ∃ x', Random.swap x i j = Ok x'.
Proof.
  intros Hi Hj. unfold Random.swap, getindex.
  destruct (lookup_lt_is_Some_2 x i Hi) as [xi ->].
  destruct (lookup_lt_is_Some_2 x j Hj) as [xj ->]. by eexists.
Qed.

Lemma shuffle_steps {A} (idxs : list nat) (x : list A) w :
  Forall (λ i, i < length x) idxs →
  ∃ x',
    for_M idxs (λ i x, j ← randbelow (i + 1); lift (Random.swap x i j)) x w
    = (Ok x', World (files w) (stdout w) (draws w) (drawn w + length idxs)) ∧
    x' ≡ₚ x.
Proof.
  revert x w. induction idxs as [|i idxs IH]; intros x w Hidx.
  - exists x. destruct w. simpl. by rewrite Nat.add_0_r.
  - apply Forall_cons in Hidx as [Hi Hidx].
    set (j := draws w (drawn w) mod (i + 1)).
    assert (j < length x) as Hj.
    { pose proof (Nat.mod_upper_bound (draws w (drawn w)) (i + 1)). lia. }
    destruct (swap_Ok x i j Hi Hj) as [x1 Hswap].
    pose proof (swap_Permutation _ _ _ _ Hswap) as Hperm1.
    destruct (IH x1 (World (files w) (stdout w) (draws w) (S (drawn w))))
      as (x' & Hrun & Hperm).
    { by rewrite (Permutation_length Hperm1). }
    exists x'. split; [|by rewrite Hperm].
    cbn [for_M]. rewrite M_bind_eq, M_bind_eq. unfold randbelow at 1.
    fold j. unfold lift at 1. rewrite Hswap, Hrun. simpl.
    do 2 f_equal. lia.
Qed.

(** [random.shuffle] returns a permutation of its argument, whatever the
    generator draws; it touches neither files nor standard output. *)
Lemma shuffle_Permutation {A} (x : list A) w :
  ∃ x' n,
    Random.shuffle x w = (Ok x', World (files w) (stdout w) (draws w) n) ∧
    x' ≡ₚ x.
Proof.
  destruct (shuffle_steps (rev (seq 1 (length x - 1))) x w) as (x' & Hrun & Hperm).
  - apply Forall_rev, Forall_seq. intros; lia.
  - by exists x', (drawn w + length (rev (seq 1 (length x - 1)))).
Qed.

Lemma foldl_snoc {A} (acc l : list A) :
  foldl (λ acc x, acc ++ [x]) acc l = acc ++ l.
Proof.
  revert acc. induction l as [|x l IH]; intros acc; simpl.
  - by rewrite app_nil_r.
  - by rewrite IH, <- app_assoc.
Qed.

Lemma foldl_snoc_map {A B} (f : A → B) (acc : list B) (l : list A) :
  foldl (λ acc x, acc ++ [f x]) acc l = acc ++ (f <$> l).
Proof.
  revert acc. induction l as [|x l IH]; intros acc; simpl.
  - by rewrite app_nil_r.
  - by rewrite IH, <- app_assoc.
Qed.

Lemma gather_from {L : Loader} dirs (shards : list (list sample)) acc w :
  Forall2 (λ dir shard, read_jsonl (files w) dir = Ok shard) dirs shards →
  for_M dirs
    (λ my_dir gathered_data,
       ds ← load_dataset my_dir;
       print [VInt (Z.of_nat (length ds))];;
       mret (foldl (λ gathered_data row, gathered_data ++ [row]) gathered_data ds))
    acc w
  = (Ok (acc ++ concat shards),
     World (files w)
           (stdout w ++ ((λ shard, [VInt (Z.of_nat (length shard))]) <$> shards))
           (draws w) (drawn w)).
Proof.
  destruct w as [fs out dr n]. simpl. intros Hshards. revert acc out.
  induction Hshards as [|dir shard dirs shards Hload _ IH]; intros acc out.
  - simpl. by rewrite !app_nil_r.
  - cbn [for_M]. rewrite M_bind_eq, M_bind_eq, load_dataset_read.
    simpl files. rewrite Hload.
    rewrite M_bind_eq. unfold print at 1.
    cbn [mret M_ret files stdout draws drawn]. rewrite foldl_snoc.
    rewrite IH. simpl. by rewrite <- !app_assoc.
Qed.

(** C8.  When each of the [num_datasets] shard files loads as a collection
    of samples, the merged collection written to the output file is a
    permutation of the concatenation of the shards (nothing dropped,
    nothing duplicated), for every sequence of draws of the random
    generator; the reported total is the sum of the shard sizes. *)
Theorem C8_merge_is_permutation {L : Loader} args (shards : list (list sample)) w :
  length shards = MergeData.num_datasets args →
  (∀ i shard,
     shards !! i = Some shard →
     read_jsonl (files w) (MergeData.shard_path args i) = Ok shard) →
  ∃ merged w',
    MergeData.main args w = (Ok (), w') ∧
    files w' !! MergeData.output_dir args = Some (jsonl merged) ∧
    merged ≡ₚ concat shards ∧
    length merged = sum_list (length <$> shards) ∧
    stdout w' =
      stdout w ++
      ((λ shard, [VInt (Z.of_nat (length shard))]) <$> shards) ++
      [[VStr "I collect ";
        VInt (Z.of_nat (sum_list (length <$> shards)));
        VStr "samples"]].
Proof.
  intros Hn Hfiles.
  assert (Forall2 (λ dir shard, read_jsonl (files w) dir = Ok shard)
                  (MergeData.shard_path args <$> seq 0 (MergeData.num_datasets args))
                  shards) as Hshards.
  { apply Forall2_same_length_lookup.
    split; [by rewrite length_fmap, length_seq|].
    intros i dir shard Hdir Hshard.
    rewrite list_lookup_fmap in Hdir.
    destruct (seq 0 _ !! i) as [i'|] eqn:Hi; simplify_eq/=.
    apply lookup_seq in Hi as [-> _]. by apply Hfiles. }
  pose proof (gather_from _ _ [] w Hshards) as Hgather. simpl in Hgather.
  set (w1 := World _ _ _ _) in Hgather.
  destruct (shuffle_Permutation (concat shards) w1) as (merged & n & Hshuffle & Hperm).
  assert (length merged = sum_list (length <$> shards)) as Hlen.
  { rewrite (Permutation_length Hperm). clear.
    induction shards as [|shard shards IH]; simpl; [done|].
    by rewrite length_app, IH. }
  exists merged,
    (World (<[MergeData.output_dir args := jsonl merged]> (files w))
           (stdout w1 ++ [[VStr "I collect ";
                           VInt (Z.of_nat (length merged));
                           VStr "samples"]])
           (draws w) n).
  split_and!; [|simpl; apply lookup_insert_eq|done..| ].
  - unfold MergeData.main. rewrite foldl_snoc_map. simpl.
    rewrite M_bind_eq. unfold MergeData.gather. rewrite Hgather.
    rewrite M_bind_eq, Hshuffle.
    rewrite M_bind_eq. unfold print at 1. cbn [files stdout draws drawn].
    rewrite open_write_jsonl. cbn [files stdout draws drawn]. reflexivity.
  - simpl. by rewrite Hlen, <- app_assoc.
Qed.

Lemma C8_witness :
  ∃ merged w',
    MergeData.main (L := jsonl_loader) merge_args shard_world = (Ok (), w') ∧
    files w' !! "gen/merged.json" = Some (jsonl merged) ∧
    merged ≡ₚ concat three_shards ∧
    length merged = 10.
Proof.
  destruct (C8_merge_is_permutation (L := jsonl_loader)
              merge_args three_shards shard_world)
    as (merged & w' & Hrun & Hfile & Hperm & Hlen & _).
  - reflexivity.
  - intros i shard Hi.
    destruct i as [|[|[|i]]]; simpl in Hi; [..|discriminate];
      injection Hi as <-; vm_compute; reflexivity.
  - exists merged, w'. split_and!; [exact Hrun|exact Hfile|exact Hperm|exact Hlen].
Defined.

Example merge_three_shards :
  (MergeData.main (L := jsonl_loader) merge_args shard_world).1 = Ok () ∧
  stdout (MergeData.main (L := jsonl_loader) merge_args shard_world).2 =
    [[VInt 3]; [VInt 5]; [VInt 2];
     [VStr "I collect "; VInt 10; VStr "samples"]].
Proof. vm_compute. done. Qed.

(** ** The examples of the specification *)

Example extract_boxed_42 : extract_boxed "\boxed{42}" = "42".
Proof. vm_compute. reflexivity. Qed.
Example extract_boxed_frac : extract_boxed "\boxed{\frac{1}{2}}" = "\frac{1}{2}".
Proof. vm_compute. reflexivity. Qed.
Example extract_boxed_none : extract_boxed "no box here" = "".
Proof. vm_compute. reflexivity. Qed.
Example extract_boxed_token : extract_boxed "\boxed 5 end" = "5".
Proof. vm_compute. reflexivity. Qed.
Example extract_boxed_stray : extract_boxed "}{\boxed{1}" = "".
Proof. vm_compute. reflexivity. Qed.

(** ** More on the extractor *)

Lemma scan_body_Return text i st r : scan_body text i st = Return r → r = "".
Proof.
  unfold scan_body. destruct (get text i) as [ch|]; [|done].
  destruct (decide (ch = "{"%char)) as [->|Hno]; [done|].
  destruct (decide (ch = "}"%char)) as [->|Hnc].
  - destruct (py_pop (stack st)) as [[stack' o]|]; [|by intros [= <-]].
    by destruct (endswith _ _).
  - destruct ch as [[] [] [] [] [] [] [] []]; done.
Qed.

(** The only early result of the scan is the empty string. *)
Lemma scan_upto_Return_empty text n r : scan_upto text n = Return r → r = "".
Proof.
  induction n as [|n IH]; [done|]. rewrite scan_upto_S.
  destruct (scan_upto text n) as [st|r0]; [apply scan_body_Return|].
  intros [= <-]. by apply IH.
Qed.

Lemma depth_no_brace d l :
  Forall (λ c, c ≠ "{"%char ∧ c ≠ "}"%char) l → depth d l = Some d.
Proof.
  induction 1 as [|c l [Ho Hc] _ IH]; simpl; [done|].
  by rewrite decide_False, decide_False.
Qed.

Lemma depth_no_close d l :
  Forall (λ c, c ≠ "}"%char) l → is_Some (depth d l).
Proof.
  intros Hl. revert d. induction Hl as [|c l Hc _ IH]; intros d; simpl; [done|].
  destruct (decide (c = "{"%char)); [apply IH|].
  rewrite decide_False by done. apply IH.
Qed.

Lemma alnum_no_brace c :
  Re.is_alnum c = true → c ≠ "{"%char ∧ c ≠ "}"%char.
Proof. by split; intros ->. Qed.

(** The content of the boxed pair that closes last is the result. *)
Lemma extract_boxed_of_last_pair text o c :
  no_unmatched_close text →
  boxed_pair text o c →
  (∀ o' c', boxed_pair text o' c' → c' ≤ c) →
  extract_boxed text = slice (o + 1) c text.
Proof.
  intros Hclosed Hpair Hlast.
  destruct (extract_boxed_some_pair text Hclosed) as (o1 & c1 & Hp1 & Hmax & ->);
    [by eauto|].
  assert (c1 = c) as ->.
  { apply Nat.le_antisymm; [by apply (Hlast o1)|by apply (Hmax o)]. }
  by rewrite (brace_pair_unique text o o1 c (proj1 Hpair) (proj1 Hp1)).
Qed.

(** A boxed expression with balanced content, after any text without
    unmatched closing brace and before any text without closing brace, is
    the one extracted. *)
Lemma extract_boxed_wrapped pre s post :
  no_unmatched_close pre →
  balanced (chars s) →
  Forall (λ c, c ≠ "}"%char) (chars post) →
  extract_boxed (pre +:+ "\boxed{" +:+ s +:+ "}" +:+ post) = s.
Proof.
  intros [d Hpre] Hs Hpost.
  set (text := pre +:+ "\boxed{" +:+ s +:+ "}" +:+ post).
  set (o := len pre + 6). set (c := o + 1 + len s).
  assert (chars text =
          (chars pre ++ chars boxed_marker) ++ "{"%char ::
          chars s ++ "}"%char :: chars post) as Htext.
  { unfold text. rewrite !chars_app. simpl. by rewrite <- !app_assoc. }
  assert (length (chars pre ++ chars boxed_marker) = o) as Ho
    by (rewrite length_app; done).
  assert (chars text =
          ((chars pre ++ chars boxed_marker) ++ "{"%char :: chars s) ++
          "}"%char :: chars post) as Htext'.
  { rewrite Htext. by rewrite <- !app_assoc. }
  assert (length ((chars pre ++ chars boxed_marker) ++ "{"%char :: chars s) = c)
    as Hc.
  { rewrite length_app, Ho. unfold c, len. simpl. lia. }
  assert (take c (chars text) =
          (chars pre ++ chars boxed_marker) ++ "{"%char :: chars s) as Htake.
  { rewrite Htext', <- Hc. apply take_app_length. }
  assert (slice (o + 1) c text = s) as Hslice.
  { unfold slice. rewrite Htake.
    replace (o + 1) with
      (length ((chars pre ++ chars boxed_marker) ++ ["{"%char]))
      by (rewrite length_app, Ho; done).
    replace ((chars pre ++ chars boxed_marker) ++ "{"%char :: chars s)
      with (((chars pre ++ chars boxed_marker) ++ ["{"%char]) ++ chars s)
      by (by rewrite <- app_assoc).
    rewrite drop_app_length. apply str_chars. }
  trans (slice (o + 1) c text); [|exact Hslice].
  apply extract_boxed_of_last_pair.
  - unfold no_unmatched_close. rewrite Htext, depth_app, depth_app, Hpre. simpl.
    rewrite depth_app. apply (depth_shift (S d)) in Hs. simpl in Hs.
    rewrite Hs. simpl. by apply depth_no_close.
  - split; [split_and!|].
    + unfold get. rewrite Htext, <- Ho. by apply list_lookup_middle.
    + unfold get. rewrite Htext', <- Hc. by apply list_lookup_middle.
    + unfold c. lia.
    + by rewrite Hslice.
    + unfold endswith. apply bool_decide_eq_true.
      rewrite chars_slice_to, Htext, <- Ho, take_app_length.
      by apply suffix_app_r.
  - intros o' c' ((_ & Hc' & _) & _). unfold get in Hc'.
    destruct (decide (c' ≤ c)) as [|Hgt]; [done|].
    rewrite Htext', cons_middle, app_assoc in Hc'.
    rewrite lookup_app_r in Hc' by (rewrite length_app, Hc; simpl; lia).
    apply list_elem_of_lookup_2 in Hc'.
    by destruct (proj1 (Forall_forall _ _) Hpost _ Hc').
Qed.

(** What [extract_boxed] returns: nothing, the content of a boxed pair, or
    the token of the search. *)
Lemma extract_boxed_cases text :
  extract_boxed text = "" ∨
  (∃ o c, boxed_pair text o c ∧ extract_boxed text = slice (o + 1) c text) ∨
  (first_boxed_token text (extract_boxed text)).
Proof.
  unfold extract_boxed.
  destruct (scan_upto text (len text)) as [st|r] eqn:Hscan.
  - pose proof (scan_upto_inv _ _ _ (Nat.le_refl _) Hscan) as [_ Hbx].
    unfold last_boxed_ok in Hbx. destruct (last (boxed_strs st)) as [b|].
    + destruct Hbx as (o & c & Hp & _ & -> & _). right; left. eauto.
    + pose proof (search_boxed_token text) as Hsearch.
      destruct (Re.search boxed_token_re text) as [[tok|]|]; auto.
  - left. by eapply scan_upto_Return_empty.
Qed.

Lemma balanced_extract_boxed text : balanced (chars (extract_boxed text)).
Proof.
  destruct (extract_boxed_cases text) as [->|[(o & c & Hp & ->)|Htok]].
  - done.
  - apply Hp.
  - destruct Htok as (pre & suf & _ & (ws & rest & _ & _ & _ & _ & Hal & _) & _).
    apply depth_no_brace. eapply Forall_impl; [exact Hal|].
    apply alnum_no_brace.
Qed.

Lemma contains_l_app sub p r : contains_l sub (p ++ sub ++ r) = true.
Proof.
  induction p as [|c p IH]; simpl.
  - destruct (sub ++ r) as [|c l] eqn:E; simpl.
    + apply app_eq_nil in E as [-> _]. unfold starts.
      by rewrite bool_decide_true.
    + rewrite <- E. unfold starts.
      rewrite bool_decide_true; [done|]. by eexists.
  - rewrite IH. apply orb_true_r.
Qed.

Lemma extract_boxed_idempotent text :
  extract_boxed ("\boxed{" +:+ extract_boxed text +:+ "}") = extract_boxed text.
Proof.
  apply (extract_boxed_wrapped "" (extract_boxed text) "").
  - by exists 0.
  - apply balanced_extract_boxed.
  - constructor.
Qed.

(** X1.  A boxed expression whose content has balanced braces is extracted
    verbatim when the text before it has no unmatched closing brace and
    the text after it has no closing brace at all: earlier boxed
    expressions, open braces and brace-less tokens around it do not
    matter. *)
Theorem X1_boxed_expression_extracted pre s post :
  no_unmatched_close pre →
  balanced (chars s) →
  Forall (λ c, c ≠ "}"%char) (chars post) →
  extract_boxed (pre +:+ "\boxed{" +:+ s +:+ "}" +:+ post) = s.
Proof. apply extract_boxed_wrapped. Qed.

Lemma X1_witness :
  extract_boxed ("so {x} is \boxed{1} or " +:+ "\boxed{" +:+ "\frac{1}{2}"
                 +:+ "}" +:+ " then \boxed 7") = "\frac{1}{2}".
Proof.
  apply (X1_boxed_expression_extracted
           "so {x} is \boxed{1} or " "\frac{1}{2}" " then \boxed 7").
  - vm_compute. eauto.
  - vm_compute. reflexivity.
  - apply Forall_forall. intros c Hc.
    repeat (apply elem_of_cons in Hc as [->|Hc]; [discriminate|]).
    by apply elem_of_nil in Hc.
Defined.

(** X2.  Whatever the text, the braces of the extracted answer are
    balanced: the prediction [\boxed{...}] built from it is well formed. *)
Theorem X2_extracted_answer_balanced text :
  balanced (chars (extract_boxed text)) ∧
  no_unmatched_close ("\boxed{" +:+ extract_boxed text +:+ "}").
Proof.
  pose proof (balanced_extract_boxed text) as Hb. split; [done|].
  unfold no_unmatched_close. rewrite chars_app. simpl. rewrite chars_app.
  rewrite depth_app. apply (depth_shift 1) in Hb. simpl in Hb.
  rewrite Hb. by eexists.
Qed.

(** X3.  Extraction undoes the wrapping that [compute_score] applies:
    extracting from [\boxed{] + the extracted answer + [}] gives the
    extracted answer again. *)
Theorem X3_extract_wrap_extract text :
  extract_boxed ("\boxed{" +:+ extract_boxed text +:+ "}") = extract_boxed text.
Proof. apply extract_boxed_idempotent. Qed.

(** X4.  The extracted answer is a contiguous piece of the text: it is
    [text[a:b]] for some positions [a] and [b]. *)
Theorem X4_extracted_answer_is_slice text :
  ∃ a b, extract_boxed text = slice a b text.
Proof.
  destruct (extract_boxed_cases text) as [->|[(o & c & _ & ->)|Htok]].
  - by exists 0, 0.
  - by eexists _, _.
  - destruct Htok as (pre & suf & Htext & (ws & rest & -> & _) & _).
    exists (length (pre ++ chars boxed_marker ++ ws)),
           (length ((pre ++ chars boxed_marker ++ ws) ++
                    chars (extract_boxed text))).
    unfold slice. rewrite Htext.
    replace (pre ++ chars boxed_marker ++ ws ++ chars (extract_boxed text) ++ rest)
      with (((pre ++ chars boxed_marker ++ ws) ++ chars (extract_boxed text))
            ++ rest) by (by rewrite <- !app_assoc).
    by rewrite take_app_length, drop_app_length, str_chars.
Qed.

(** X5.  A text that does not contain the marker [\boxed] yields the empty
    string, whatever braces it has. *)
Theorem X5_no_marker_no_answer text :
  contains boxed_marker text = false → extract_boxed text = "".
Proof.
  intros Hnone. unfold contains in Hnone.
  destruct (extract_boxed_cases text) as [->|[(o & c & Hp & _)|Htok]]; [done|..].
  - destruct Hp as [_ Hends]. unfold endswith in Hends.
    apply bool_decide_eq_true in Hends as [p Hp].
    rewrite chars_slice_to in Hp.
    rewrite <- (take_drop o (chars text)), Hp, <- app_assoc in Hnone.
    by rewrite contains_l_app in Hnone.
  - destruct Htok as (pre & suf & Htext & (ws & rest & -> & _) & _).
    rewrite Htext in Hnone. by rewrite contains_l_app in Hnone.
Qed.

Lemma X5_witness : extract_boxed "the answer is {42}} \box{1}" = "".
Proof.
  apply (X5_no_marker_no_answer "the answer is {42}} \box{1}").
  vm_compute. reflexivity.
Defined.

(** X6.  A closing brace that directly follows a text with balanced braces
    makes the result empty, whatever comes after it. *)
Theorem X6_stray_close_after_balanced pre rest :
  balanced (chars pre) → extract_boxed (pre +:+ "}" +:+ rest) = "".
Proof. apply extract_boxed_after_balanced. Qed.

Lemma X6_witness :
  extract_boxed ("f{x} = 1" +:+ "}" +:+ " so \boxed{1}") = "".
Proof.
  apply (X6_stray_close_after_balanced "f{x} = 1" " so \boxed{1}").
  vm_compute. reflexivity.
Defined.

(** ** More on scoring *)

(** X7.  The argument [timeout_score] matters at a timeout only: when the
    verification call does anything but raise [TimeoutException],
    [compute_score] gives the same result for every [timeout_score]. *)
Theorem X7_timeout_score_only_at_timeout {G : Graders}
    model_output ground_truth t t' :
  verify_func ["\boxed{" +:+ ground_truth +:+ "}"]
              ["\boxed{" +:+ extract_boxed model_output +:+ "}"]
    ≠ Raise TimeoutException →
  compute_score model_output ground_truth t =
  compute_score model_output ground_truth t'.
Proof.
  intros Hno. rewrite !compute_score_outcomes.
  destruct (verify_func _ _) as [[score aux]|[]]; done.
Qed.

Lemma X7_witness :
  compute_score (G := flaky_graders) "\boxed{3}" "2" (VInt 0) =
  compute_score (G := flaky_graders) "\boxed{3}" "2" (VInt 1).
Proof.
  apply (X7_timeout_score_only_at_timeout (G := flaky_graders)).
  vm_compute. discriminate.
Defined.

(** X8.  Scoring a model output and scoring its extracted answer wrapped
    in [\boxed{}] give the same result: the score depends on the output
    only through the extracted answer. *)
Theorem X8_score_of_extracted_answer {G : Graders}
    model_output ground_truth timeout_score :
  compute_score ("\boxed{" +:+ extract_boxed model_output +:+ "}")
                ground_truth timeout_score =
  compute_score model_output ground_truth timeout_score.
Proof. unfold compute_score. by rewrite extract_boxed_idempotent. Qed.

Lemma score_response_general {G : Graders} r gt :
  raises_only_Exceptions G →
  score_response false (VStr r) (VStr gt) = Ok (VFloat (verdict r gt)).
Proof.
  intros Hexc. unfold score_response, verdict. simpl.
  unfold compute_score.
  destruct (verify_func _ _) as [[score aux]|e] eqn:Hv; [done|].
  by rewrite (Hexc _ _ _ Hv).
Qed.

Lemma score_sample_general {G : Graders} (row : sample) responses gt :
  raises_only_Exceptions G →
  row !! "responses" = Some (VList (VStr <$> responses)) →
  row !! "gt" = Some (VStr gt) →
  score_sample false row = Ok ((λ r, VFloat (verdict r gt)) <$> responses).
Proof.
  intros Hexc Hresp Hgt. apply score_sample_Ok.
  exists (VStr <$> responses), (VStr gt). split_and!; [done..|].
  apply Forall2_fmap, Forall_Forall2_diag, Forall_forall.
  intros r _. by apply score_response_general.
Qed.

(** X9.  Under the general strategy, with a verifier that raises nothing
    but instances of [Exception], the scoring loop completes on every
    dataset of well-formed samples, and the score of each response is its
    own verdict: the verifier's score, or [0.0] where the verifier failed.
    A failure on one response changes no other score. *)
Theorem X9_general_strategy_isolates_failures {G : Graders} (ds : list sample) :
  raises_only_Exceptions G →
  Forall well_formed ds →
  ∃ all_scores,
    score_all false ds = Ok all_scores ∧
    ∀ i (row : sample) responses gt,
      ds !! i = Some row →
      row !! "responses" = Some (VList (VStr <$> responses)) →
      row !! "gt" = Some (VStr gt) →
      all_scores !! i = Some ((λ r, VFloat (verdict r gt)) <$> responses).
Proof.
  intros Hexc Hwf.
  destruct (Forall_exists_Forall2
              (λ row scores, score_sample false row = Ok scores) ds)
    as [all_scores Hall].
  { eapply Forall_impl; [exact Hwf|].
    intros row (responses & gt & Hresp & Hgt). eexists.
    by eapply score_sample_general. }
  exists all_scores. split; [by apply score_all_Ok|].
  intros i row responses gt Hrow Hresp Hgt.
  destruct (Forall2_lookup_l _ _ _ _ _ Hall Hrow) as (scores & Hscores & Hok).
  rewrite (score_sample_general row responses gt Hexc Hresp Hgt) in Hok.
  by simplify_eq.
Qed.

Lemma X9_witness :
  ∃ all_scores, score_all (G := flaky_graders) false two_rows = Ok all_scores.
Proof.
  destruct (X9_general_strategy_isolates_failures (G := flaky_graders) two_rows)
    as (all_scores & Hall & _).
  - intros golds preds e. simpl. case_decide; [done|]. by intros [= <-].
  - repeat constructor; by eexists _, _.
  - by exists all_scores.
Defined.

(** ** More on [main] of compute_score.py *)


Lemma save_scores_run args (ds : list sample) all_scores w :
  save_scores args ds all_scores w =
  match annotate ds all_scores with
  | Ok gathered_data =>
      (Ok (),
       World (<[score_path args := jsonl gathered_data]> (files w))
             (stdout w) (draws w) (drawn w))
  | Raise e => (Raise e, w)
  end.
Proof.
  unfold save_scores. rewrite M_bind_eq. unfold lift at 1.
  destruct (annotate ds all_scores) as [gathered_data|e]; [|done].
  apply open_write_jsonl.
Qed.

(** The run of [main], stage by stage. *)
Lemma main_run {L : Loader} {G : Graders} args w :
  main args w =
  match read_jsonl (files w) (dataset_path args) with
  | Raise e => (Raise e, w)
  | Ok ds =>
      match score_all (contains "minerva_math" (lower (dataset_path args))) ds with
      | Raise e => (Raise e, w)
      | Ok all_scores =>
          match write_record args all_scores w with
          | (Raise e, w2) => (Raise e, w2)
          | (Ok _, w2) =>
              if save_score args then save_scores args ds all_scores w2
              else (Ok (), w2)
          end
      end
  end.
Proof.
  unfold main. rewrite M_bind_eq, load_dataset_read.
  destruct (read_jsonl (files w) (dataset_path args)) as [ds|e]; [|done].
  rewrite M_bind_eq. unfold lift at 1.
  destruct (score_all _ ds) as [all_scores|e]; [|done].
  rewrite M_bind_eq.
  destruct (write_record args all_scores w) as [[[]|e] w2]; [|done].
  by destruct (save_score args).
Qed.

Lemma score_all_first_failure {G : Graders} b (ds : list sample) i row e :
  ds !! i = Some row →
  (∀ j (row' : sample), j < i → ds !! j = Some row' →
     ∃ scores, score_sample b row' = Ok scores) →
  score_sample b row = Raise e →
  score_all b ds = Raise e.
Proof.
  intros Hrow Hbefore Hfail.
  assert (i < length ds) as Hi by (by eapply lookup_lt_Some).
  unfold score_all.
  rewrite (for_in_ext _ _
    (λ i acc, y ← (getindex ds i ≫= score_sample b); mret (acc ++ [y])));
    [|intros k acc; unfold getindex; by destruct (ds !! k)].
  replace (length ds) with (i + S (length ds - S i)) by lia.
  rewrite seq_app. cbn [seq]. rewrite Nat.add_0_l.
  destruct (Forall_exists_Forall2
              (λ k y, (getindex ds k ≫= score_sample b) = Ok y) (seq 0 i))
    as [ys Hys].
  { apply Forall_forall. intros k Hk%elem_of_seq.
    destruct (lookup_lt_is_Some_2 ds k) as [row' Hrow']; [lia|].
    destruct (Hbefore k row') as [scores Hscores]; [lia|done|].
    exists scores. apply getindex_bind_Ok. eauto. }
  eapply for_in_collect_Raise; [exact Hys|].
  unfold getindex. by rewrite Hrow.
Qed.

Lemma score_sample_missing_key {G : Graders} b (row : sample) :
  row !! "responses" = None ∨ row !! "gt" = None →
  score_sample b row = Raise (ExceptionOf "KeyError").
Proof.
  unfold score_sample, getitem. intros [->| ->]; [done|].
  by destruct (row !! "responses").
Qed.

(** X11.  When the loaded dataset has a sample without the column
    [responses] or without the column [gt], and the samples before it were
    scored, the run ends with [KeyError]; it writes nothing, not even the
    record file. *)
Theorem X11_missing_key_aborts {L : Loader} {G : Graders}
    args w (ds : list sample) i row :
  read_jsonl (files w) (dataset_path args) = Ok ds →
  ds !! i = Some row →
  (∀ j (row' : sample), j < i → ds !! j = Some row' →
     ∃ scores,
       score_sample (contains "minerva_math" (lower (dataset_path args))) row'
       = Ok scores) →
  row !! "responses" = None ∨ row !! "gt" = None →
  main args w = (Raise (ExceptionOf "KeyError"), w).
Proof.
  intros Hfile Hrow Hbefore Hmissing.
  rewrite main_run, Hfile.
  by rewrite (score_all_first_failure _ ds i row (ExceptionOf "KeyError")
                Hrow Hbefore (score_sample_missing_key _ row Hmissing)).
Qed.

Lemma X11_witness :
  let rows := [delete "gt" (row_of "2" ["\boxed{2}"]);
               delete "gt" (row_of "4" ["4"])] in
  main (L := jsonl_loader) (G := exact_graders) math_args
       (world_of [("data/math500.jsonl", jsonl rows)])
  = (Raise (ExceptionOf "KeyError"),
     world_of [("data/math500.jsonl", jsonl rows)]).
Proof.
  intros rows.
  apply (X11_missing_key_aborts (L := jsonl_loader) (G := exact_graders)
           math_args _ rows 0 (delete "gt" (row_of "2" ["\boxed{2}"]))).
  - vm_compute. reflexivity.
  - reflexivity.
  - intros j row' Hj. lia.
  - right. vm_compute. reflexivity.
Defined.

Lemma score_sample_null {G : Graders} b (row : sample) :
  (row !! "responses" = Some VNone ∧ is_Some (row !! "gt")) ∨
  (b = false ∧ row !! "gt" = Some VNone ∧
   ∃ r rest, row !! "responses" = Some (VList (r :: rest))) →
  score_sample b row = Raise (ExceptionOf "TypeError").
Proof.
  unfold score_sample, getitem.
  intros [[-> [gt ->]]|(-> & -> & r & rest & ->)]; [done|].
  cbn [mbind result_bind as_list for_in]. unfold score_response.
  by destruct r.
Qed.

(** X24.  A loaded sample can hold [None] in a column: the loader gives
    every sample all columns of the file.  When [responses] is [None], or
    when [gt] is [None] under the general strategy and there is a response
    to score, the run ends with [TypeError] once the samples before it are
    scored: the failure is outside the handlers of [compute_score].  The
    run writes nothing. *)
Theorem X24_null_column_aborts {L : Loader} {G : Graders}
    args w (ds : list sample) i row :
  read_jsonl (files w) (dataset_path args) = Ok ds →
  ds !! i = Some row →
  (∀ j (row' : sample), j < i → ds !! j = Some row' →
     ∃ scores,
       score_sample (contains "minerva_math" (lower (dataset_path args))) row'
       = Ok scores) →
  (row !! "responses" = Some VNone ∧ is_Some (row !! "gt")) ∨
  (contains "minerva_math" (lower (dataset_path args)) = false ∧
   row !! "gt" = Some VNone ∧
   ∃ r rest, row !! "responses" = Some (VList (r :: rest))) →
  main args w = (Raise (ExceptionOf "TypeError"), w).
Proof.
  intros Hfile Hrow Hbefore Hnull.
  rewrite main_run, Hfile.
  by rewrite (score_all_first_failure _ ds i row (ExceptionOf "TypeError")
                Hrow Hbefore (score_sample_null _ row Hnull)).
Qed.

Lemma X24_witness :
  let rows := [row_of "2" ["\boxed{2}"]; delete "gt" (row_of "4" ["4"])] in
  main (L := jsonl_loader) (G := exact_graders) math_args
       (world_of [("data/math500.jsonl", jsonl rows)])
  = (Raise (ExceptionOf "TypeError"),
     world_of [("data/math500.jsonl", jsonl rows)]).
Proof.
  intros rows.
  apply (X24_null_column_aborts (L := jsonl_loader) (G := exact_graders)
           math_args _
           [row_of "2" ["\boxed{2}"]; <["gt" := VNone]> (row_of "4" ["4"])]
           1 (<["gt" := VNone]> (row_of "4" ["4"]))).
  - vm_compute. reflexivity.
  - reflexivity.
  - intros j row' Hj Hrow'. destruct j as [|j]; [|lia].
    injection Hrow' as <-. eexists. vm_compute. reflexivity.
  - right. split_and!; [vm_compute; reflexivity..|].
    eexists _, _. vm_compute. reflexivity.
Defined.

(** The files and the output a run of [main] leaves alone. *)
Lemma main_frame {L : Loader} {G : Graders} args w :
  (∀ path, path ≠ record_path args → path ≠ score_path args →
     files (main args w).2 !! path = files w !! path) ∧
  (save_score args = false →
   ∀ path, path ≠ record_path args →
     files (main args w).2 !! path = files w !! path) ∧
  stdout (main args w).2 = stdout w.
Proof.
  rewrite main_run.
  destruct (read_jsonl (files w) (dataset_path args)) as [ds|e]; [|done].
  destruct (score_all _ ds) as [all_scores|e]; [|done].
  rewrite write_record_unfold.
  destruct (Np.mean all_scores) as [m|e]; simpl.
  - destruct (save_score args); simpl.
    + rewrite save_scores_run.
      destruct (annotate ds all_scores) as [gathered_data|e]; simpl.
      * split_and!; [|done..]. intros path H1 H2.
        by rewrite !lookup_insert_ne.
      * split_and!; [|done..]. intros path H1 H2.
        by rewrite lookup_insert_ne.
    + split_and!; [| |done]; intros; by rewrite lookup_insert_ne.
  - split_and!; [| |done]; intros; by rewrite lookup_insert_ne.
Qed.

(** X12.  [main] changes no file but the record file and the file of the
    annotated dataset, and only the record file when [save_score] is off;
    it prints nothing.  This holds for every run, failed ones included. *)
Theorem X12_main_touches_two_files {L : Loader} {G : Graders} args w :
  (∀ path, path ≠ record_path args → path ≠ score_path args →
     files (main args w).2 !! path = files w !! path) ∧
  (save_score args = false →
   ∀ path, path ≠ record_path args →
     files (main args w).2 !! path = files w !! path) ∧
  stdout (main args w).2 = stdout w.
Proof. apply main_frame. Qed.

(** A complete run: the dataset loads, every sample is scored, the mean
    exists. *)
Lemma main_complete_run {L : Loader} {G : Graders}
    args w (ds : list sample) all_scores m :
  read_jsonl (files w) (dataset_path args) = Ok ds →
  score_all (contains "minerva_math" (lower (dataset_path args))) ds
    = Ok all_scores →
  Np.mean all_scores = Ok m →
  main args w =
  (Ok (),
   World (files_after_main args ds all_scores (Np.round m 4) (files w))
         (stdout w) (draws w) (drawn w)).
Proof.
  intros Hfile Hall Hmean.
  rewrite main_run, Hfile, Hall.
  rewrite write_record_unfold, Hmean. unfold files_after_main, record_line.
  destruct (save_score args); [|done].
  rewrite save_scores_run, annotate_Ok; [done|].
  apply score_all_Ok in Hall. symmetry. by eapply Forall2_length.
Qed.

(** The mean of rows of one length, whatever that length. *)
Lemma mean_rows a n :
  Forall (λ row, length row = n) a →
  Forall (Forall is_score) a →
  Np.mean a =
  Ok (match length (concat a) with
      | O => Np.NaN
      | S _ => Np.Fin (arith_mean (num_of <$> concat a))
      end).
Proof.
  intros Hrows Hscores.
  assert (mapM Np.to_float (concat a) = Ok (num_of <$> concat a)) as Hnums.
  { apply mapM_result_Ok, Forall2_fmap_r, Forall_Forall2_diag.
    apply Forall_concat in Hscores. eapply Forall_impl; [exact Hscores|].
    intros v Hv. by destruct v. }
  pose proof (length_concat_equal_rows a n Hrows) as Hlen.
  unfold Np.mean, Np.asarray. destruct a as [|row a]; [done|].
  assert (length row = n) as Hrow by (by inversion Hrows).
  rewrite (proj2 (forallb_forall _ _)).
  - rewrite Hnums. simpl. unfold Np.size. simpl.
    rewrite Hrow, Nat.mul_1_r. simpl in Hlen. rewrite <- Hlen.
    destruct (length (row ++ concat a)) eqn:Hsize; [done|].
    unfold arith_mean. by rewrite length_fmap, Hsize.
  - intros r Hr. apply Nat.eqb_eq. rewrite Hrow.
    by eapply (proj1 (Forall_forall _ _) Hrows), list_elem_of_In.
Qed.

Lemma concat_nils {A} (a : list (list A)) :
  Forall (λ row, row = []) a → concat a = [].
Proof. induction 1 as [|row a -> _ IH]; simpl; done. Qed.

(** X10.  When no sample of the loaded dataset has a response, the run
    completes and the record line reports [nan]: the mean of no score. *)
Theorem X10_no_response_reports_nan {L : Loader} {G : Graders}
    args w (ds : list sample) :
  read_jsonl (files w) (dataset_path args) = Ok ds →
  Forall (λ row : sample,
            row !! "responses" = Some (VList []) ∧ is_Some (row !! "gt")) ds →
  ∃ all_scores,
    main args w =
    (Ok (),
     World (files_after_main args ds all_scores Np.NaN (files w))
           (stdout w) (draws w) (drawn w)) ∧
    record_line args Np.NaN = dataset_path args +:+ " nan" +:+ newline ∧
    Forall (λ scores, scores = []) all_scores.
Proof.
  intros Hfile Hrows.
  set (b := contains "minerva_math" (lower (dataset_path args))).
  assert (Forall2 (λ row scores, score_sample b row = Ok scores ∧ scores = [])
                  ds (replicate (length ds) [])) as Hall.
  { clear Hfile. induction Hrows as [|row ds [Hresp [gt Hgt]] _ IH]; simpl;
      constructor; [|done].
    split; [|done]. unfold score_sample, getitem. by rewrite Hresp, Hgt. }
  exists (replicate (length ds) []).
  assert (Forall (λ scores : list value, scores = []) (replicate (length ds) []))
    as Hnil by (apply Forall_replicate; done).
  split_and!; [|done|done].
  apply (main_complete_run args w ds _ Np.NaN Hfile).
  - apply score_all_Ok. eapply Forall2_impl; [exact Hall|]. by intros ?? [? _].
  - rewrite (mean_rows _ 0).
    + by rewrite (concat_nils _ Hnil).
    + eapply Forall_impl; [exact Hnil|]. by intros ? ->.
    + eapply Forall_impl; [exact Hnil|]. by intros ? ->.
Qed.

Lemma X10_witness :
  ∃ all_scores,
    main (L := jsonl_loader) (G := exact_graders) math_args
         (world_of [("data/math500.jsonl", jsonl [row_of "2" []])])
    = (Ok (),
       World (files_after_main math_args [row_of "2" []] all_scores Np.NaN
                (files (world_of [("data/math500.jsonl", jsonl [row_of "2" []])])))
             [] (λ n, n) 0).
Proof.
  destruct (X10_no_response_reports_nan (L := jsonl_loader) (G := exact_graders)
              math_args
              (world_of [("data/math500.jsonl", jsonl [row_of "2" []])])
              [row_of "2" []])
    as (all_scores & Hrun & _).
  - vm_compute. reflexivity.
  - repeat constructor. by eexists.
  - exists all_scores. exact Hrun.
Defined.

(** X22.  The scores of a completed loop have the type of the strategy:
    booleans under the alternate strategy; under the general strategy
    floats, or the [int] [0] where the verifier ran out of time. *)
Theorem X22_score_type_by_strategy {G : Graders} is_minerva_math
    (ds : list sample) all_scores :
  score_all is_minerva_math ds = Ok all_scores →
  Forall (Forall (λ v, if is_minerva_math : bool
                       then ∃ b : bool, v = VBool b
                       else (∃ q, v = VFloat q) ∨ v = VInt 0)) all_scores.
Proof.
  intros Hall%score_all_Ok.
  induction Hall as [|row scores ds all Hrow _ IH]; constructor; [|done].
  apply score_sample_Ok in Hrow as (responses & gt & _ & _ & Hscores).
  induction Hscores as [|r s rs ss Hs _ IHs]; constructor; [|done].
  by apply score_response_type in Hs.
Qed.

Lemma X22_witness :
  Forall (Forall (λ v, (∃ q, v = VFloat q) ∨ v = VInt 0))
         [[VInt 0; VInt 0]; [VInt 0; VInt 0]].
Proof.
  apply (X22_score_type_by_strategy (G := timeout_graders) false two_rows).
  vm_compute. reflexivity.
Defined.

(** ** More on the reported mean *)

Lemma to_num_unit v : is_unit_score v → (0 <= num_of v <= 1)%Q.
Proof.
  destruct v as [| [] |z| | | |]; simpl; try done; try lra.
  intros [Hlo Hhi]. rewrite Zle_Qle in Hlo, Hhi. done.
Qed.

Lemma sum_unit l :
  Forall (λ q, 0 <= q <= 1)%Q l →
  (0 <= Np.sum l <= inject_Z (Z.of_nat (length l)))%Q.
Proof.
  induction 1 as [|q l Hq _ IH]; simpl.
  - change (inject_Z (Z.of_nat 0)) with 0%Q. lra.
  - rewrite Nat2Z.inj_succ, <- Z.add_1_r, inject_Z_plus.
    change (inject_Z 1) with 1%Q. lra.
Qed.

Lemma arith_mean_unit l :
  l ≠ [] → Forall (λ q, 0 <= q <= 1)%Q l → (0 <= arith_mean l <= 1)%Q.
Proof.
  intros Hne Hl. pose proof (sum_unit l Hl) as [Hlo Hhi]. unfold arith_mean.
  assert (0 < inject_Z (Z.of_nat (length l)))%Q as Hpos.
  { change 0%Q with (inject_Z 0). rewrite <- Zlt_Qlt.
    destruct l; [done|]. rewrite length_cons. lia. }
  split.
  - apply Qle_shift_div_l; [done|]. lra.
  - apply Qle_shift_div_r; [done|]. lra.
Qed.

(** Rounding keeps a number between two integers between them. *)
Lemma rint_between (lo hi : Z) q :
  (inject_Z lo <= q <= inject_Z hi)%Q → (lo ≤ Np.rint q ≤ hi)%Z.
Proof.
  intros [Hlo Hhi]. pose proof (rint_close q) as [H1 H2].
  assert (inject_Z (lo - 1) < inject_Z (Np.rint q))%Q as Ha.
  { unfold Z.sub. rewrite inject_Z_plus, inject_Z_opp.
    change (inject_Z 1) with 1%Q. lra. }
  assert (inject_Z (Np.rint q) < inject_Z (hi + 1))%Q as Hb.
  { rewrite inject_Z_plus. change (inject_Z 1) with 1%Q. lra. }
  rewrite <- Zlt_Qlt in Ha, Hb. lia.
Qed.

Lemma round4_unit m :
  (0 <= m <= 1)%Q →
  ∃ r, Np.round (Np.Fin m) 4 = Np.Fin r ∧ (0 <= r <= 1)%Q.
Proof.
  intros Hm. eexists. split; [reflexivity|].
  change (inject_Z (10 ^ Z.of_nat 4)) with 10000%Q.
  destruct (rint_between 0 10000 (m * 10000)) as [Hlo Hhi].
  { change (inject_Z 0) with 0%Q. change (inject_Z 10000) with 10000%Q. lra. }
  rewrite Zle_Qle in Hlo, Hhi.
  change (inject_Z 0) with 0%Q in Hlo.
  change (inject_Z 10000) with 10000%Q in Hhi.
  unfold Qdiv. change (/ 10000)%Q with (1 # 10000)%Q. lra.
Qed.

(** Scores between [0] and [1], in rows of one positive length, give a
    record line with a number between [0] and [1]. *)
Lemma write_record_unit args all_scores n w :
  all_scores ≠ [] → 0 < n →
  Forall (λ row, length row = n) all_scores →
  Forall (Forall is_unit_score) all_scores →
  ∃ r,
    Np.mean all_scores = Ok (Np.Fin (arith_mean (num_of <$> concat all_scores))) ∧
    Np.round (Np.Fin (arith_mean (num_of <$> concat all_scores))) 4 = Np.Fin r ∧
    write_record args all_scores w =
      (Ok (),
       World (<[record_path args := [Text (record_line args (Np.Fin r))]]>
                (files w))
             (stdout w) (draws w) (drawn w)) ∧
    (0 <= r <= 1)%Q.
Proof.
  intros Hne Hn Hrows Hunit.
  assert (Forall (Forall is_score) all_scores) as Hscores.
  { eapply Forall_impl; [exact Hunit|]. intros row Hrow.
    eapply Forall_impl; [exact Hrow|]. intros v Hv. by destruct v. }
  assert (length (concat all_scores) ≠ 0) as Hsize.
  { rewrite (length_concat_equal_rows _ n Hrows). destruct all_scores; [done|].
    simpl. nia. }
  pose proof (mean_rows all_scores n Hrows Hscores) as Hmean.
  destruct (length (concat all_scores)) eqn:Hlen; [done|].
  destruct (round4_unit (arith_mean (num_of <$> concat all_scores)))
    as (r & Hround & Hr).
  { apply arith_mean_unit.
    - intros Hnil%fmap_nil_inv. by rewrite Hnil in Hlen.
    - apply Forall_fmap. apply Forall_concat in Hunit.
      eapply Forall_impl; [exact Hunit|]. apply to_num_unit. }
  exists r. split; [exact Hmean|]. split; [exact Hround|]. split; [|exact Hr].
  by rewrite write_record_unfold, Hmean, Hround.
Qed.

(** X14.  When every score lies between [0] and [1] (as the scores of
    both strategies canonically do) and the samples have the same positive
    number of scores, the mean written to the record lies between [0] and
    [1]. *)
Theorem X14_reported_mean_within_unit args all_scores n w :
  all_scores ≠ [] → 0 < n →
  Forall (λ row, length row = n) all_scores →
  Forall (Forall is_unit_score) all_scores →
  ∃ r,
    write_record args all_scores w =
      (Ok (),
       World (<[record_path args := [Text (record_line args (Np.Fin r))]]>
                (files w))
             (stdout w) (draws w) (drawn w)) ∧
    (0 <= r <= 1)%Q.
Proof.
  intros Hne Hn Hrows Hunit.
  destruct (write_record_unit args all_scores n w Hne Hn Hrows Hunit)
    as (r & _ & _ & Hrun & Hr).
  by exists r.
Qed.

Lemma X14_witness :
  ∃ r,
    write_record math_args [[VFloat (1 # 2); VBool true]; [VFloat 0; VFloat 1]]
                 (world_of [])
    = (Ok (),
       World (<[record_path math_args :=
                  [Text (record_line math_args (Np.Fin r))]]> ∅)
             [] (λ n, n) 0) ∧
    (0 <= r <= 1)%Q.
Proof.
  apply (X14_reported_mean_within_unit math_args _ 2 (world_of [])).
  - discriminate.
  - lia.
  - repeat constructor.
  - repeat constructor; simpl; lra.
Defined.

(** X13.  Under the general strategy, with a verifier that raises nothing
    but instances of [Exception] and gives scores between [0] and [1],
    [main] completes on every loaded dataset that is not empty and whose
    samples are well formed and have the same positive number of
    responses: each response gets its verdict, the record file holds one
    line with a number between [0] and [1], and the annotated samples are
    written when asked for. *)
Theorem X13_main_completes {L : Loader} {G : Graders}
    args w (ds : list sample) n :
  read_jsonl (files w) (dataset_path args) = Ok ds →
  contains "minerva_math" (lower (dataset_path args)) = false →
  raises_only_Exceptions G →
  unit_verdicts G →
  ds ≠ [] → 0 < n →
  Forall (λ row : sample,
            ∃ responses gt,
              row !! "responses" = Some (VList (VStr <$> responses)) ∧
              row !! "gt" = Some (VStr gt) ∧ length responses = n) ds →
  ∃ all_scores r,
    score_all false ds = Ok all_scores ∧
    (0 <= r <= 1)%Q ∧
    main args w =
    (Ok (),
     World (files_after_main args ds all_scores (Np.Fin r) (files w))
           (stdout w) (draws w) (drawn w)).
Proof.
  intros Hfile Hgeneral Hexc Hunit Hne Hn Hrows.
  destruct (Forall_exists_Forall2
              (λ row scores, score_sample false row = Ok scores ∧
                             length scores = n ∧ Forall is_unit_score scores) ds)
    as [all_scores Hall].
  { eapply Forall_impl; [exact Hrows|].
    intros row (responses & gt & Hresp & Hgt & Hlen). eexists. split_and!.
    - by eapply score_sample_general.
    - by rewrite length_fmap.
    - apply Forall_fmap, Forall_forall. intros r _. simpl. unfold verdict.
      destruct (verify_func _ _) as [[score aux]|e] eqn:Hv; [|lra].
      by eapply Hunit. }
  assert (score_all false ds = Ok all_scores) as Hscore.
  { apply score_all_Ok. eapply Forall2_impl; [exact Hall|]. by intros ?? [? _]. }
  assert (Forall (λ row, length row = n) all_scores ∧
          Forall (Forall is_unit_score) all_scores) as [Hlen Hsc].
  { clear -Hall. induction Hall as [|row scores ds all (_ & ? & ?) _ [??]];
      split; by constructor. }
  assert (all_scores ≠ []) as Hne'.
  { apply Forall2_length in Hall. destruct ds, all_scores; done. }
  destruct (write_record_unit args all_scores n w Hne' Hn Hlen Hsc)
    as (r & Hmean & Hround & _ & Hr).
  exists all_scores, r. split; [exact Hscore|]. split; [exact Hr|].
  rewrite <- Hround. apply main_complete_run; [done| |done].
  by rewrite Hgeneral.
Qed.

Lemma X13_witness :
  ∃ all_scores r,
    main (L := jsonl_loader) (G := flaky_graders) math_args
         (world_of [("data/math500.jsonl", jsonl two_rows)])
    = (Ok (),
       World (files_after_main math_args two_rows all_scores (Np.Fin r)
                (files (world_of [("data/math500.jsonl", jsonl two_rows)])))
             [] (λ n, n) 0).
Proof.
  destruct (X13_main_completes (L := jsonl_loader) (G := flaky_graders) math_args
              (world_of [("data/math500.jsonl", jsonl two_rows)]) two_rows 2)
    as (all_scores & r & _ & _ & Hrun).
  - vm_compute. reflexivity.
  - vm_compute. reflexivity.
  - intros golds preds e. simpl. case_decide; [done|]. by intros [= <-].
  - intros golds preds score aux. simpl. case_decide; [|done].
    intros [= <- _]. lra.
  - discriminate.
  - lia.
  - repeat constructor; by eexists _, _.
  - exists all_scores, r. exact Hrun.
Defined.

(** ** More on [main] of merge_data.py *)

(** The loop over the shards, up to the first shard that does not load. *)
Lemma gather_from_failure {L : Loader} dirs1 dir dirs2 (shards : list (list sample)) e acc w :
  Forall2 (λ dir shard, read_jsonl (files w) dir = Ok shard) dirs1 shards →
  read_jsonl (files w) dir = Raise e →
  for_M (dirs1 ++ dir :: dirs2)
    (λ my_dir gathered_data,
       ds ← load_dataset my_dir;
       print [VInt (Z.of_nat (length ds))];;
       mret (foldl (λ gathered_data row, gathered_data ++ [row]) gathered_data ds))
    acc w
  = (Raise e,
     World (files w) (stdout w ++ printed_sizes shards) (draws w) (drawn w)).
Proof.
  destruct w as [fs out dr n]. simpl. intros Hshards Hfail. revert acc out.
  induction Hshards as [|d shard dirs1 shards Hd _ IH]; intros acc out.
  - cbn [app for_M]. rewrite M_bind_eq, M_bind_eq, load_dataset_read.
    simpl files. rewrite Hfail. unfold printed_sizes. simpl.
    by rewrite app_nil_r.
  - cbn [app for_M]. rewrite M_bind_eq, M_bind_eq, load_dataset_read.
    simpl files. rewrite Hd. rewrite M_bind_eq. unfold print at 1.
    cbn [mret M_ret files stdout draws drawn]. rewrite IH.
    unfold printed_sizes. simpl. by rewrite <- !app_assoc.
Qed.


(** The run of the merger, stage by stage. *)
Lemma merge_main_run {L : Loader} args w :
  MergeData.main args w =
  match MergeData.gather
          (MergeData.shard_path args <$> seq 0 (MergeData.num_datasets args)) w
  with
  | (Raise e, w1) => (Raise e, w1)
  | (Ok gathered_data, w1) =>
      match Random.shuffle gathered_data w1 with
      | (Raise e, w2) => (Raise e, w2)
      | (Ok merged, w2) =>
          (Ok (),
           World (<[MergeData.output_dir args := jsonl merged]> (files w2))
                 (stdout w2 ++
                  [[VStr "I collect "; VInt (Z.of_nat (length merged));
                    VStr "samples"]])
                 (draws w2) (drawn w2))
      end
  end.
Proof.
  unfold MergeData.main. rewrite foldl_snoc_map. simpl.
  rewrite M_bind_eq.
  destruct (MergeData.gather _ w) as [[gathered_data|e] w1]; [|done].
  rewrite M_bind_eq.
  destruct (Random.shuffle gathered_data w1) as [[merged|e] w2]; [|done].
  rewrite M_bind_eq. unfold print at 1. cbn [files stdout draws drawn].
  by rewrite open_write_jsonl.
Qed.

(** X16.  When the shards before shard [k] load and shard [k] does not
    (the file is missing, or is no collection of records), the merger ends
    with the loader's exception after printing the sizes of the shards
    before [k]: it writes no file and draws no random number. *)
Theorem X16_unreadable_shard_aborts {L : Loader}
    args w (shards : list (list sample)) e :
  length shards < MergeData.num_datasets args →
  (∀ i shard, shards !! i = Some shard →
     read_jsonl (files w) (MergeData.shard_path args i) = Ok shard) →
  read_jsonl (files w) (MergeData.shard_path args (length shards)) = Raise e →
  MergeData.main args w =
  (Raise e,
   World (files w) (stdout w ++ printed_sizes shards) (draws w) (drawn w)).
Proof.
  intros Hk Hloads Hfail. rewrite merge_main_run. unfold MergeData.gather.
  replace (MergeData.num_datasets args)
    with (length shards + S (MergeData.num_datasets args - S (length shards)))
    by lia.
  rewrite seq_app, fmap_app. cbn [seq fmap list_fmap]. rewrite Nat.add_0_l.
  rewrite (gather_from_failure _ _ _ shards e); [done| |done].
  apply Forall2_same_length_lookup.
  split; [by rewrite length_fmap, length_seq|].
  intros i dir shard Hdir Hshard.
  rewrite list_lookup_fmap in Hdir.
  destruct (seq 0 _ !! i) as [i'|] eqn:Hi; simplify_eq/=.
  apply lookup_seq in Hi as [-> _]. by apply Hloads.
Qed.

Lemma X16_witness :
  let w := World (list_to_map [("gen/0.json", jsonl [row_of "2" []])])
                 [] (λ n, n) 0 in
  MergeData.main (L := jsonl_loader) merge_args w =
  (Raise (ExceptionOf "FileNotFoundError"),
   World (files w) [[VInt 1]] (λ n, n) 0).
Proof.
  intros w.
  apply (X16_unreadable_shard_aborts (L := jsonl_loader)
           merge_args w [[row_of "2" []]]).
  - simpl. lia.
  - intros i shard Hi. destruct i as [|i]; [|done].
    injection Hi as <-. vm_compute. reflexivity.
  - vm_compute. reflexivity.
Defined.



Lemma pretty_N_go_not_slash x s :
  (∀ rest, s ≠ String "/"%char rest) →
  ∀ rest, pretty_N_go x s ≠ String "/"%char rest.
Proof.
  revert s. induction (N.lt_wf_0 x) as [x _ IH]; intros s Hs.
  assert (x = 0 ∨ 0 < x)%N as [->|?] by lia.
  - by rewrite pretty_N_go_0.
  - rewrite pretty_N_go_step by done. apply IH.
    { by apply N.div_lt. }
    intros rest. unfold pretty_N_char. by repeat case_match.
Qed.

Lemma pretty_nat_not_slash (i : nat) rest : pretty i ≠ String "/"%char rest.
Proof.
  unfold pretty, pretty_nat, pretty, pretty_N.
  case_decide; [done|]. by apply pretty_N_go_not_slash.
Qed.

Lemma shard_name_relative (i : nat) :
  starts (chars "/") (chars (pretty i +:+ ".json")) = false.
Proof.
  unfold starts. apply bool_decide_eq_false. intros [rest Hrest].
  rewrite chars_app in Hrest.
  destruct (pretty i) as [|c s] eqn:Hi; [done|].
  simpl in Hrest. injection Hrest as -> _.
  by destruct (pretty_nat_not_slash i s).
Qed.

Lemma shard_path_inj args i j :
  MergeData.shard_path args i = MergeData.shard_path args j → i = j.
Proof.
  unfold MergeData.shard_path, MergeData.os_path_join.
  rewrite !shard_name_relative. intros Heq.
  assert (pretty i +:+ ".json" = pretty j +:+ ".json") as Hname.
  { case_decide; [done|].
    destruct (endswith _ _); by repeat apply String.app_inj in Heq. }
  apply (f_equal chars) in Hname. rewrite !chars_app in Hname.
  apply app_inv_tail, chars_inj in Hname. by apply pretty_nat_inj in Hname.
Qed.

(** X18.  Different shard indices name different files, whatever the base
    path: no shard is read twice. *)
Theorem X18_shard_paths_distinct args i j :
  i ≠ j → MergeData.shard_path args i ≠ MergeData.shard_path args j.
Proof. intros Hne Heq. by apply Hne, (shard_path_inj args). Qed.

Lemma X18_witness :
  MergeData.shard_path merge_args 1 ≠ MergeData.shard_path merge_args 10.
Proof. apply (X18_shard_paths_distinct merge_args 1 10). lia. Defined.


(** ** The data steps of reformat.py *)

Section reformat.
Context {T : Reformat.Tokenizer}.

Lemma script_window args (ds : list sample) :
  (let train_end := Z.min (Reformat.train_end args) (Z.of_nat (length ds)) in
   if (0 <? train_end)%Z
   then Reformat.select_range (Reformat.train_start args) (Z.to_nat train_end) ds
   else ds) = window args ds.
Proof.
  unfold window, Reformat.select_range. cbv zeta.
  destruct (Z.ltb_spec 0 (Z.min (Reformat.train_end args) (Z.of_nat (length ds))))
    as [Hpos|Hneg].
  - rewrite decide_True by lia. rewrite skipn_firstn_comm.
    destruct (decide (Z.to_nat (Reformat.train_end args) ≤ length ds)) as [Hle|Hgt].
    + by replace (Z.to_nat (Z.min _ _)) with (Z.to_nat (Reformat.train_end args))
        by lia.
    + replace (Z.to_nat (Z.min _ _)) with (length ds) by lia.
      rewrite !take_ge; [done|rewrite length_drop; lia..].
  - case_decide as Hte; [|done].
    assert (length ds = 0) as Hlen by lia.
    apply nil_length_inv in Hlen as ->. by rewrite take_nil, drop_nil.
Qed.

Lemma able_to_extract_preparable (example : sample) :
  preparable example →
  Reformat.able_to_extract example
  = Ok (bool_decide (token_count example ≤ 700)).
Proof.
  intros (question & gt & tokens & Hq & _ & Htok).
  unfold Reformat.able_to_extract, token_count, getitem. rewrite Hq. simpl.
  rewrite Htok. simpl. f_equal.
  case_decide; [by rewrite bool_decide_false by lia|].
  by rewrite bool_decide_true by lia.
Qed.

Lemma filter_ds_preparable (ds : list sample) :
  Forall preparable ds →
  Reformat.filter_ds Reformat.able_to_extract ds
  = Ok (filter (λ example, token_count example ≤ 700) ds).
Proof.
  unfold Reformat.filter_ds. intros Hds.
  cut (∀ kept,
         for_in ds
           (λ example kept,
              keep ← Reformat.able_to_extract example;
              mret (if keep : bool then kept ++ [example] else kept))
           kept
         = Ok (kept ++ filter (λ example, token_count example ≤ 700) ds)).
  { intros Hcut. by rewrite Hcut. }
  induction Hds as [|example ds Hex _ IH]; intros kept; simpl.
  - by rewrite app_nil_r.
  - rewrite (able_to_extract_preparable example Hex). simpl.
    case_bool_decide as Hshort.
    + rewrite IH, filter_cons_True by done. by rewrite <- app_assoc.
    + rewrite IH, filter_cons_False by done. done.
Qed.

Lemma process_fn_preparable (example : sample) idx :
  preparable example →
  Reformat.process_fn "train" example idx
  = (Ok (prepared_fields idx example), delete "problem" example).
Proof.
  intros (question & gt & tokens & Hq & Hgt & _).
  unfold Reformat.process_fn, prepared_fields. rewrite Hq, Hgt. simpl.
  by rewrite lookup_delete_ne, Hgt.
Qed.

Lemma map_with_indices_preparable (ds : list sample) :
  Forall preparable ds →
  Reformat.map_with_indices (Reformat.process_fn "train") ds
  = Ok (imap prepared_row ds).
Proof.
  intros Hds. unfold Reformat.map_with_indices.
  rewrite (for_in_ext _ _
    (λ ir acc,
       y ← (let '(outcome, example) := Reformat.process_fn "train" ir.2 ir.1 in
            data ← outcome; mret (data ∪ example));
       mret (acc ++ [y])));
    [|intros [i row] acc; simpl;
      by destruct (Reformat.process_fn "train" row i) as [[data|e] example]].
  apply for_in_collect. exists (imap prepared_row ds). split; [done|].
  apply Forall2_same_length_lookup. unfold enumerate.
  split; [by rewrite !length_imap|].
  intros i [i' row] row' Hi Hrow'.
  rewrite list_lookup_imap in Hi. rewrite list_lookup_imap in Hrow'.
  destruct (ds !! i) as [r|] eqn:Hr; simplify_eq/=.
  rewrite process_fn_preparable; [done|].
  by eapply (proj1 (Forall_forall _ _) Hds), list_elem_of_lookup_2.
Qed.

(** The data steps on accepted examples: the rows of the window with at
    most 700 tokens, prepared in order; [IndexError] when none is left. *)
Lemma prepare_train_run args (ds : list sample) :
  Forall preparable ds →
  Reformat.prepare_train args ds =
  match filter (λ example, token_count example ≤ 700) (window args ds) with
  | [] => Raise (ExceptionOf "IndexError")
  | kept => Ok (imap prepared_row kept)
  end.
Proof.
  intros Hds. unfold Reformat.prepare_train. rewrite script_window.
  assert (Forall preparable (window args ds)) as Hwin.
  { unfold window. case_decide; [|done].
    apply Forall_forall. intros ex Hex.
    apply subseteq_drop, subseteq_take in Hex.
    by apply (proj1 (Forall_forall _ _) Hds). }
  rewrite (filter_ds_preparable _ Hwin). simpl.
  rewrite map_with_indices_preparable.
  - by destruct (filter _ _).
  - apply Forall_forall. intros ex Hex%list_elem_of_filter.
    by apply (proj1 (Forall_forall _ _) Hwin), Hex.
Qed.

End reformat.

(** X20.  On a dataset of examples with a problem text and a ground truth,
    the data steps prepare exactly the examples of the window
    [train_start .. train_end] (the whole dataset when [train_end] is not
    positive) whose problem has at most 700 tokens, in their order.  The
    row at position [i] has the five prepared fields, with the index [i],
    the ground truth of the [i]-th kept example and its problem followed
    by the instruction; in every other column but [problem] it has what
    the example has. *)
Theorem X20_prepared_rows {T : Reformat.Tokenizer} args (ds : list sample) :
  Forall preparable ds →
  filter (λ example, token_count example ≤ 700) (window args ds) ≠ [] →
  ∃ rows,
    Reformat.prepare_train args ds = Ok rows ∧
    length rows =
      length (filter (λ example, token_count example ≤ 700) (window args ds)) ∧
    ∀ i (example : sample),
      filter (λ example, token_count example ≤ 700) (window args ds) !! i
        = Some example →
      ∃ question gt (row : sample),
        example !! "problem" = Some (VStr question) ∧
        example !! "gt" = Some gt ∧
        rows !! i = Some row ∧
        ∀ key, key ≠ "problem" →
          row !! key =
            (Reformat.make_data "train"
               (question +:+ " " +:+ Reformat.instruction_following) gt i
             ∪ example) !! key.
Proof.
  intros Hds Hne. rewrite (prepare_train_run args ds Hds).
  set (kept := filter _ _) in *.
  exists (imap prepared_row kept). split_and!.
  - by destruct kept.
  - by rewrite length_imap.
  - intros i example Hex.
    assert (preparable example) as (question & gt & tokens & Hq & Hgt & _).
    { apply list_elem_of_lookup_2 in Hex. unfold kept in Hex.
      apply list_elem_of_filter in Hex as [_ Hex].
      apply (proj1 (Forall_forall _ _) Hds).
      unfold window in Hex. case_decide; [|done].
      by apply subseteq_drop, subseteq_take in Hex. }
    exists question, gt, (prepared_row i example). split_and!; [done..| |].
    + by rewrite list_lookup_imap, Hex.
    + intros key Hkey. unfold prepared_row, prepared_fields.
      rewrite Hq, Hgt. by rewrite !lookup_union, lookup_delete_ne.
Qed.

Lemma X20_witness :
  ∃ rows (row : sample),
    Reformat.prepare_train (T := char_tokenizer) train_args train_rows = Ok rows ∧
    length rows = 2 ∧
    rows !! 1 = Some row ∧
    row !! "gt" = Some (VStr "4") ∧
    row !! "responses" = Some (VList []) ∧
    row !! "ability" = Some (VStr "math").
Proof.
  destruct (X20_prepared_rows (T := char_tokenizer) train_args train_rows)
    as (rows & Hrun & Hlen & Hrows).
  - repeat constructor; eexists _, _, _; split_and!; vm_compute; reflexivity.
  - vm_compute. discriminate.
  - destruct (Hrows 1 (row_of "4" []))
      as (question & gt & row & Hq & Hgt & Hrow & Hkeys);
      [vm_compute; reflexivity|].
    vm_compute in Hq. injection Hq as <-.
    vm_compute in Hgt. injection Hgt as <-.
    exists rows, row. split_and!; [exact Hrun| |exact Hrow|..].
    + rewrite Hlen. vm_compute. reflexivity.
    + rewrite Hkeys by discriminate. vm_compute. reflexivity.
    + rewrite Hkeys by discriminate. vm_compute. reflexivity.
    + rewrite Hkeys by discriminate. vm_compute. reflexivity.
Defined.

(** X21.  When no example of the window has at most 700 tokens (for
    instance on an empty dataset), the data steps end with [IndexError] at
    the access to the first prepared row. *)
Theorem X21_nothing_kept_IndexError {T : Reformat.Tokenizer} args
    (ds : list sample) :
  Forall preparable ds →
  filter (λ example, token_count example ≤ 700) (window args ds) = [] →
  Reformat.prepare_train args ds = Raise (ExceptionOf "IndexError").
Proof.
  intros Hds Hnone. by rewrite (prepare_train_run args ds Hds), Hnone.
Qed.

Lemma X21_witness :
  Reformat.prepare_train (T := char_tokenizer) train_args
    [row_of "1" []; <["problem" := VStr long_problem]> (row_of "3" [])]
  = Raise (ExceptionOf "IndexError").
Proof.
  apply (X21_nothing_kept_IndexError (T := char_tokenizer)).
  - repeat constructor; eexists _, _, _; split_and!; vm_compute; reflexivity.
  - vm_compute. reflexivity.
Defined.
